(** * UptimeKumaServer: the runtime coordinator of server/uptime-kuma-server.js

    A shallow embedding of the class [UptimeKumaServer]: the singleton
    accessor, the start-up sequence, the maintenance scheduler pass, the
    client IP derivation, the timezone accessors and the maintenance list
    broadcast.  Asynchronous methods are embedded as state-passing
    computations over a [World] (database tables, process environment, the
    date library's default zone, the object heap, the armed timers and the
    record of what was emitted); a rejected promise is the outcome [Thrown],
    and what a method changed before it threw stays changed. *)

From Stdlib Require Import ZArith Ascii String List Bool Lia.
From stdpp Require Import base option list gmap strings sorting pretty.

Local Open Scope string_scope.
Local Open Scope list_scope.
Local Open Scope Z_scope.

(** ** JavaScript values and strings *)

(** The values a setting can hold (the settings store keeps JSON values). *)
Inductive JsValue : Type :=
| JsUndefined
| JsNull
| JsBool (b : bool)
| JsNumber (n : Z)
| JsString (s : string).

(** [if (v)]: the values that count as true. *)
Definition truthy (v : JsValue) : bool :=
  match v with
  | JsUndefined | JsNull => false
  | JsBool b => b
  | JsNumber n => negb (n =? 0)
  | JsString s => negb (String.eqb s "")
  end.

(** [String(v)], the coercion applied by an assignment to [process.env]. *)
Definition js_to_string (v : JsValue) : string :=
  match v with
  | JsUndefined => "undefined"
  | JsNull => "null"
  | JsBool true => "true"
  | JsBool false => "false"
  | JsNumber n => pretty n
  | JsString s => s
  end.

(** A header, an environment variable or a remote address is a string or
    [undefined]; [None] is [undefined]. *)
Definition str_truthy (o : option string) : bool :=
  match o with
  | Some s => negb (String.eqb s "")
  | None => false
  end.

(** [a || b] on such values. *)
Definition js_or (a b : option string) : option string :=
  if str_truthy a then a else b.

(** Strings are sequences of 8-bit code units (header values reach the
    server decoded as latin1).  The white space and line terminators that
    [trim] removes, in that range: TAB, LF, VT, FF, CR, SP, NBSP. *)
Definition is_js_space (c : ascii) : bool :=
  let n := nat_of_ascii c in
  (((9 <=? n) && (n <=? 13)) || (n =? 32) || (n =? 160))%nat.

(** The characters that [.] of a regular expression does not match. *)
Definition is_line_terminator (c : ascii) : bool :=
  let n := nat_of_ascii c in
  ((n =? 10) || (n =? 13))%nat.

(** [s.split(sep)[0]]: what stands before the first separator. *)
Fixpoint split_head (sep : ascii) (s : string) : string :=
  match s with
  | EmptyString => EmptyString
  | String c r => if Ascii.eqb c sep then EmptyString else String c (split_head sep r)
  end.

Fixpoint trimStart (s : string) : string :=
  match s with
  | EmptyString => EmptyString
  | String c r => if is_js_space c then trimStart r else s
  end.

Fixpoint trimEnd (s : string) : string :=
  match s with
  | EmptyString => EmptyString
  | String c r =>
      match trimEnd r with
      | EmptyString => if is_js_space c then EmptyString else String c EmptyString
      | r' => String c r'
      end
  end.

(** [s.trim()] *)
Definition trim (s : string) : string := trimEnd (trimStart s).

(** The match of [/^.*:/] at the start of [s], as what is left after it:
    [.*] is greedy, so the match ends at the last colon that no line
    terminator separates from the start; [None] when there is no match. *)
Fixpoint match_to_last_colon (s : string) : option string :=
  match s with
  | EmptyString => None
  | String c r =>
      if is_line_terminator c then None
      else match match_to_last_colon r with
           | Some rest => Some rest
           | None => if Ascii.eqb c ":" then Some r else None
           end
  end.

(** [s.replace(/^.*:/, "")] *)
Definition replace_to_last_colon (s : string) : string :=
  match match_to_last_colon s with
  | Some rest => rest
  | None => s
  end.

(** ** The world the server runs in *)

Definition Time := Z.

(** A row of table [maintenance] (the columns the server's queries use). *)
Record Maintenance : Type := {
  mnt_id : Z;
  user_id : Z;
  mnt_end_date : Time;
  title : string
}.

(** A row of table [maintenance_timeslot]. *)
Record MaintenanceTimeslot : Type := {
  ts_id : Z;
  maintenance_id : Z;
  start_date : Time;
  end_date : Time;
  generated_next : bool
}.

(** A stored setting: its value and the category ("type") it was stored under. *)
Record Setting : Type := {
  value : JsValue;
  category : option string
}.

Record Database : Type := {
  setting : gmap string Setting;
  maintenance : list Maintenance;
  maintenance_timeslot : list MaintenanceTimeslot
}.

(** The fields of an [UptimeKumaServer] object that the constructor and the
    start-up sequence set. *)
Record UptimeKumaServer : Type := {
  https : bool;
  indexHTML : string;
  generateMaintenanceTimeslotsInterval : option nat
}.

(** An interval armed with [setInterval]. *)
Record Timer : Type := {
  callback : string;
  period : Z
}.

(** A public JSON view, as [toJSON()] of a model object returns it. *)
#[local] Unset Elimination Schemes.
Inductive Json : Type :=
| JsonNull
| JsonBool (b : bool)
| JsonNumber (n : Z)
| JsonString (s : string)
| JsonArray (items : list Json)
| JsonObject (fields : list (string * Json)).
#[local] Set Elimination Schemes.

(** What the server did that the outside can see, in order: a roll-forward
    that resolved for a slot, a timeslot bean written back with [R.store],
    an emission to a room of the real-time transport. *)
Inductive Event : Type :=
| RolledForward (slot : MaintenanceTimeslot)
| Stored (bean : MaintenanceTimeslot)
| Emitted (room : Z) (event : string) (payload : gmap Z Json).

Record World : Type := {
  db : Database;
  now : Time;
  env : gmap string string;
  files : gmap string string;
  dayjsDefault : option string;
  heap : list UptimeKumaServer;
  instance : option nat;
  timers : list Timer;
  events : list Event
}.

Definition with_db (d : Database) (w : World) : World :=
  {| db := d; now := now w; env := env w; files := files w;
     dayjsDefault := dayjsDefault w; heap := heap w; instance := instance w;
     timers := timers w; events := events w |}.

Definition with_env (e : gmap string string) (w : World) : World :=
  {| db := db w; now := now w; env := e; files := files w;
     dayjsDefault := dayjsDefault w; heap := heap w; instance := instance w;
     timers := timers w; events := events w |}.

Definition with_dayjsDefault (z : option string) (w : World) : World :=
  {| db := db w; now := now w; env := env w; files := files w;
     dayjsDefault := z; heap := heap w; instance := instance w;
     timers := timers w; events := events w |}.

Definition with_heap (h : list UptimeKumaServer) (w : World) : World :=
  {| db := db w; now := now w; env := env w; files := files w;
     dayjsDefault := dayjsDefault w; heap := h; instance := instance w;
     timers := timers w; events := events w |}.

Definition with_instance (i : option nat) (w : World) : World :=
  {| db := db w; now := now w; env := env w; files := files w;
     dayjsDefault := dayjsDefault w; heap := heap w; instance := i;
     timers := timers w; events := events w |}.

Definition with_timers (t : list Timer) (w : World) : World :=
  {| db := db w; now := now w; env := env w; files := files w;
     dayjsDefault := dayjsDefault w; heap := heap w; instance := instance w;
     timers := t; events := events w |}.

Definition with_events (l : list Event) (w : World) : World :=
  {| db := db w; now := now w; env := env w; files := files w;
     dayjsDefault := dayjsDefault w; heap := heap w; instance := instance w;
     timers := timers w; events := l |}.

(** ** Asynchronous computations *)

Definition Error := string.

(** How a call ends: it returns, it throws (the promise rejects), or the
    process exits. *)
Inductive Outcome (A : Type) : Type :=
| Returned (a : A)
| Thrown (e : Error)
| Exited (code : Z).
Global Arguments Returned {A} a.
Global Arguments Thrown {A} e.
Global Arguments Exited {A} code.

Definition Async (A : Type) : Type := World -> Outcome A * World.

Definition ret {A} (a : A) : Async A := fun w => (Returned a, w).

(** [await m] followed by [k]: a throw or an exit of [m] skips [k] and keeps
    the world as [m] left it. *)
Definition bind {A B} (m : Async A) (k : A -> Async B) : Async B :=
  fun w =>
    match m w with
    | (Returned a, w') => k a w'
    | (Thrown e, w') => (Thrown e, w')
    | (Exited c, w') => (Exited c, w')
    end.

Definition throw {A} (e : Error) : Async A := fun w => (Thrown e, w).
Definition exit {A} (c : Z) : Async A := fun w => (Exited c, w).
Definition get {A} (f : World -> A) : Async A := fun w => (Returned (f w), w).
Definition modify (f : World -> World) : Async unit := fun w => (Returned tt, f w).

(** [try { m } catch (e) { h }] *)
Definition try_catch {A} (m : Async A) (h : Error -> Async A) : Async A :=
  fun w =>
    match m w with
    | (Thrown e, w') => h e w'
    | r => r
    end.

(** A computation that only reads: it leaves the world as it is. *)
Definition reads {A} (m : Async A) : Prop := forall w, (m w).2 = w.

Declare Scope async_scope.
Delimit Scope async_scope with async.
Notation "x <- m ;; k" := (bind m (fun x => k))
  (at level 100, m at next level, right associativity) : async_scope.
Notation "m ;; k" := (bind m (fun _ => k))
  (at level 100, right associativity) : async_scope.
Local Open Scope async_scope.

(** A collaborator works on the database, at the current time; the server's
    own process state and the record of events are out of its reach. *)
Definition External (A : Type) : Type := Time -> Database -> Outcome A * Database.

Definition call {A} (f : External A) : Async A :=
  fun w => let '(r, d) := f (now w) (db w) in (r, with_db d w).

(** The collaborators that the server requires from other modules. *)
Class Collaborators : Type := {
  (** [maintenance.toJSON()] of ./model/maintenance *)
  toJSON : Maintenance -> External Json;
  (** [MaintenanceTimeslot.generateTimeslot(maintenance, minDate, removeExist)]
      of ./model/maintenance_timeslot; the maintenance is [None] when the
      relation loaded no row. *)
  generateTimeslot : option Maintenance -> Time -> bool -> External unit;
  (** [CacheableDnsHttpAgent.update()] *)
  CacheableDnsHttpAgent_update : External unit;
  (** [dayjs.tz().format()]: the current time in the default zone. *)
  dayjs_tz_format : option string -> Time -> Outcome string;
  (** [dayjs.tz.guess()]: the zone that the host reports; it follows the
      environment variable [TZ] (given here as the process has it, [None]
      when unset). *)
  dayjs_tz_guess : option string -> string;
  (** [https.createServer({ key, cert }, app)] of Node, on the contents of
      the two files: the error it throws when the key or the certificate is
      not usable, [None] when the server is created. *)
  https_createServer : string -> string -> option Error
}.

(** A connection: [socket.userID], [socket.client.conn.request.headers]
    (header names in lower case) and [socket.client.conn.remoteAddress]. *)
Record Socket : Type := {
  userID : Z;
  headers : gmap string string;
  remoteAddress : option string
}.

Definition with_setting (s : gmap string Setting) (d : Database) : Database :=
  {| setting := s; maintenance := maintenance d;
     maintenance_timeslot := maintenance_timeslot d |}.

Definition with_maintenance_timeslot (l : list MaintenanceTimeslot) (d : Database) : Database :=
  {| setting := setting d; maintenance := maintenance d;
     maintenance_timeslot := l |}.

(** [a || b] where [b] is a string: the result is a string. *)
Definition js_or_str (a : option string) (b : string) : string :=
  match a with
  | Some s => if String.eqb s "" then b else s
  | None => b
  end.

(** [ORDER BY end_date DESC, title] *)
Definition maintenance_before (a b : Maintenance) : bool :=
  (mnt_end_date b <? mnt_end_date a)
  || ((mnt_end_date a =? mnt_end_date b) && String.leb (title a) (title b)).

(** The timeslot of the loop after [maintenanceTimeslot.generated_next = true]. *)
Definition flagged (ts : MaintenanceTimeslot) : MaintenanceTimeslot :=
  {| ts_id := ts_id ts; maintenance_id := maintenance_id ts;
     start_date := start_date ts; end_date := end_date ts;
     generated_next := true |}.

(** [generated_next = 0 AND start_date <= DATETIME('now')] *)
Definition is_due (t : Time) (ts : MaintenanceTimeslot) : bool :=
  negb (generated_next ts) && (start_date ts <=? t).

Definition due_timeslots (w : World) : list MaintenanceTimeslot :=
  List.filter (is_due (now w)) (maintenance_timeslot (db w)).

Definition mark (e : Event) : Async unit :=
  modify (fun w => with_events (events w ++ [e]) w).

(** Modelled from the spec: the settings store, [Settings.get] and
    [Settings.set] of ./settings, which is not among the sources: get and
    set of string-keyed values, namespaced by category; a key that was never
    set reads as [null]. *)
Definition setting_value (key : string) (w : World) : JsValue :=
  match setting (db w) !! key with
  | Some s => value s
  | None => JsNull
  end.

(** [Settings.get(key)] *)
Definition Settings_get (key : string) : Async JsValue := get (setting_value key).

(** [Settings.set(key, value, type)] *)
Definition Settings_set (key : string) (v : JsValue) (type : option string) : Async unit :=
  modify (fun w =>
    with_db (with_setting (<[key := {| value := v; category := type |}]> (setting (db w))) (db w)) w).

(** [fs.readFileSync(path).toString()] *)
Definition readFileSync (path : string) : Async string :=
  fun w => match files w !! path with
           | Some content => ret content w
           | None => throw ("ENOENT: no such file or directory, open " +:+ path) w
           end.

(** [R.find("maintenance_timeslot", " generated_next = 0 AND start_date <= DATETIME('now') ")] *)
Definition find_due_timeslots : Async (list MaintenanceTimeslot) := get due_timeslots.

(** The row of table [maintenance] that a timeslot refers to. *)
Definition window_of (d : Database) (ts : MaintenanceTimeslot) : option Maintenance :=
  List.find (fun m => mnt_id m =? maintenance_id ts) (maintenance d).

(** [await maintenanceTimeslot.maintenance]: the relation is loaded from
    the database, [None] (null) when no row is found. *)
Definition load_maintenance (ts : MaintenanceTimeslot) : Async (option Maintenance) :=
  get (fun w => window_of (db w) ts).

(** [R.store(bean)] of a timeslot bean that has an id: the row with that id
    takes the bean's columns. *)
Definition update_row (bean : MaintenanceTimeslot) (rows : list MaintenanceTimeslot)
    : list MaintenanceTimeslot :=
  map (fun row => if ts_id row =? ts_id bean then bean else row) rows.

Definition R_store (bean : MaintenanceTimeslot) : Async unit :=
  modify (fun w =>
    with_db (with_maintenance_timeslot
               (update_row bean (maintenance_timeslot (db w))) (db w)) w) ;;
  mark (Stored bean).

(** [R.find("maintenance", " user_id = ? ORDER BY end_date DESC, title", [userID])] *)
Definition find_maintenance (uid : Z) : Async (list Maintenance) :=
  get (fun w =>
    merge_sort (fun a b => Is_true (maintenance_before a b))
      (List.filter (fun m => user_id m =? uid) (maintenance (db w)))).

(** [this.io.to(room).emit(event, payload)] *)
Definition emit (room : Z) (event : string) (payload : gmap Z Json) : Async unit :=
  mark (Emitted room event payload).

(** [setInterval(callback, period)]: the handle is the timer's place in the
    table of armed timers. *)
Definition setInterval (cb : string) (ms : Z) : Async nat :=
  fun w => (Returned (length (timers w)),
            with_timers (timers w ++ [{| callback := cb; period := ms |}]) w).

(** ** The server *)

Section Server.

Context `{Collaborators}.

(** [new UptimeKumaServer(args)]: the result is the reference of the new
    object in the heap. *)
Definition new_UptimeKumaServer (args : gmap string string) : Async nat :=
  e <- get env ;;
  let sslKey := js_or (js_or (js_or (args !! "ssl-key") (e !! "UPTIME_KUMA_SSL_KEY")) (e !! "SSL_KEY")) None in
  let sslCert := js_or (js_or (js_or (args !! "ssl-cert") (e !! "UPTIME_KUMA_SSL_CERT")) (e !! "SSL_CERT")) None in
  secure <- (if str_truthy sslKey && str_truthy sslCert then
               key <- readFileSync (default "" sslKey) ;;
               cert <- readFileSync (default "" sslCert) ;;
               match https_createServer key cert with
               | Some err => throw err
               | None => ret true
               end
             else ret false) ;;
  html <- try_catch (readFileSync "./dist/index.html")
            (fun _ => if bool_decide (e !! "NODE_ENV" = Some "development")
                      then ret ""
                      else exit 1) ;;
  h <- get heap ;;
  modify (with_heap (h ++ [{| https := secure; indexHTML := html;
                               generateMaintenanceTimeslotsInterval := None |}])) ;;
  ret (length h).

(** [UptimeKumaServer.getInstance(args)]; the static field [instance] is
    [None] while it is null. *)
Definition getInstance (args : gmap string string) : Async (option nat) :=
  i <- get instance ;;
  (match i with
   | None => r <- new_UptimeKumaServer args ;; modify (with_instance (Some r))
   | Some _ => ret tt
   end) ;;
  get instance.

Definition getClientIP (socket : Socket) : Async string :=
  let clientIP := js_or (headers socket !! "cf-connecting-ip") (remoteAddress socket) in
  let clientIP := match clientIP with
                  | None => ""
                  | Some ip => ip
                  end in
  trustProxy <- Settings_get "trustProxy" ;;
  if truthy trustProxy then
    let forwardedFor := headers socket !! "x-forwarded-for" in
    ret (js_or_str
           (js_or (match forwardedFor with
                   | Some f => Some (trim (split_head "," f))
                   | None => None
                   end)
                  (headers socket !! "x-real-ip"))
           (replace_to_last_colon clientIP))
  else
    ret (replace_to_last_colon clientIP).

Definition getTimezone : Async JsValue :=
  timezone <- Settings_get "serverTimezone" ;;
  if truthy timezone then ret timezone
  else
    e <- get env ;;
    if str_truthy (e !! "TZ") then ret (JsString (default "" (e !! "TZ")))
    else ret (JsString (dayjs_tz_guess (e !! "TZ"))).

Definition setTimezone (timezone : string) : Async unit :=
  Settings_set "serverTimezone" (JsString timezone) (Some "general") ;;
  modify (fun w => with_env (<["TZ" := timezone]> (env w)) w) ;;
  modify (with_dayjsDefault (Some timezone)).

(** The body of the loop of [generateMaintenanceTimeslots]; the event
    [RolledForward] records that the awaited roll-forward resolved. *)
Definition processTimeslot (maintenanceTimeslot : MaintenanceTimeslot) : Async unit :=
  maintenance <- load_maintenance maintenanceTimeslot ;;
  call (generateTimeslot maintenance (end_date maintenanceTimeslot) false) ;;
  mark (RolledForward maintenanceTimeslot) ;;
  R_store (flagged maintenanceTimeslot).

(** [for (let maintenanceTimeslot of list) { ... }] *)
Fixpoint forEachTimeslot (list : list MaintenanceTimeslot) : Async unit :=
  match list with
  | [] => ret tt
  | maintenanceTimeslot :: rest =>
      processTimeslot maintenanceTimeslot ;;
      forEachTimeslot rest
  end.

Definition generateMaintenanceTimeslots : Async unit :=
  list <- find_due_timeslots ;;
  forEachTimeslot list.

Definition initAfterDatabaseReady (this : nat) : Async unit :=
  call CacheableDnsHttpAgent_update ;;
  tz <- getTimezone ;;
  modify (fun w => with_env (<["TZ" := js_to_string tz]> (env w)) w) ;;
  e <- get env ;;
  modify (with_dayjsDefault (e !! "TZ")) ;;
  (fun w => (dayjs_tz_format (dayjsDefault w) (now w), w)) ;;
  generateMaintenanceTimeslots ;;
  handle <- setInterval "generateMaintenanceTimeslots" (60 * 1000) ;;
  modify (fun w =>
    with_heap (alter (fun s => {| https := https s; indexHTML := indexHTML s;
                                  generateMaintenanceTimeslotsInterval := Some handle |})
                     this (heap w)) w).

(** The loop of [getMaintenanceJSONList]: [result[maintenance.id] = await maintenance.toJSON()] *)
Fixpoint toJSON_each (l : list Maintenance) (result : gmap Z Json) : Async (gmap Z Json) :=
  match l with
  | [] => ret result
  | m :: rest =>
      json <- call (toJSON m) ;;
      toJSON_each rest (<[mnt_id m := json]> result)
  end.

Definition getMaintenanceJSONList (uid : Z) : Async (gmap Z Json) :=
  maintenanceList <- find_maintenance uid ;;
  toJSON_each maintenanceList ∅.



End Server.

(** ** The vocabulary of the specification *)

(** The baseline of the client IP derivation: the [cf-connecting-ip] header
    or the raw remote address, the empty string when both are absent. *)
Definition baseline (socket : Socket) : string :=
  default "" (js_or (headers socket !! "cf-connecting-ip") (remoteAddress socket)).

(** The first comma-separated entry of the [x-forwarded-for] header, trimmed. *)
Definition forwardedFor_first (socket : Socket) : option string :=
  (fun f => trim (split_head "," f)) <$> (headers socket !! "x-forwarded-for").

Fixpoint contains (c : ascii) (s : string) : bool :=
  match s with
  | EmptyString => false
  | String a r => Ascii.eqb a c || contains c r
  end.

Definition single_line (s : string) : bool :=
  negb (contains "010" s) && negb (contains "013" s).

(** What follows the last colon of [s], [None] when [s] has no colon. *)
Fixpoint after_last_colon (s : string) : option string :=
  match s with
  | EmptyString => None
  | String c r =>
      match after_last_colon r with
      | Some rest => Some rest
      | None => if Ascii.eqb c ":" then Some r else None
      end
  end.

(** In the words of the specification: everything up to and including the
    last colon removed. *)
Definition spec_strip (s : string) : string := default s (after_last_colon s).

(** In the words of the specification: the value chosen by preference (with
    [trustProxy]: the first [x-forwarded-for] entry, else [x-real-ip], else
    the baseline; without: the baseline), colon-stripped in all cases. *)
Definition spec_resolveClientIP (trustProxy : bool) (socket : Socket) : string :=
  spec_strip
    (if trustProxy
     then js_or_str (js_or (forwardedFor_first socket) (headers socket !! "x-real-ip"))
                    (baseline socket)
     else baseline socket).

(** What a pass records for the slots it has finished. *)
Definition pass_events (l : list MaintenanceTimeslot) : list Event :=
  flat_map (fun ts => [RolledForward ts; Stored (flagged ts)]) l.

(** ** The roll-forward routine *)

(** A timeslot row stands for the occurrence [slot] of the maintenance [mid]. *)
Definition same_slot (mid : Z) (slot : Time * Time) (row : MaintenanceTimeslot) : bool :=
  (maintenance_id row =? mid) && (start_date row =? slot.1) && (end_date row =? slot.2).

(** An id that no row has. *)
Definition fresh_id (rows : list MaintenanceTimeslot) : Z :=
  1 + foldr Z.max 0 (map ts_id rows).

(** Modelled from the spec: the roll-forward routine
    [generateTimeslot(window, previousEndTime, forceFlag)] of
    ./model/maintenance_timeslot, which is not among the sources: it
    computes the next slot of the window after the previous end time (by
    the window's schedule, [next]) and persists it, not yet flagged;
    repeated calls for the same logical next slot persist it once
    (idempotent).  A window that could not be loaded is a data error.  The
    scheduler pass always passes [false] for the flag, and the model does
    not tell its values apart. *)
Definition persist_once (mid : Z) (slot : Time * Time) (rows : list MaintenanceTimeslot)
    : list MaintenanceTimeslot :=
  if existsb (same_slot mid slot) rows then rows
  else rows ++ [{| ts_id := fresh_id rows; maintenance_id := mid;
                   start_date := slot.1; end_date := slot.2;
                   generated_next := false |}].

Definition spec_generateTimeslot (next : Maintenance -> Time -> Time * Time)
    (maintenance : option Maintenance) (minDate : Time) (removeExist : bool) : External unit :=
  fun _ d =>
    match maintenance with
    | None => (Thrown "TypeError: Cannot read properties of null", d)
    | Some m =>
        (Returned tt,
         with_maintenance_timeslot
           (persist_once (mnt_id m) (next m minDate) (maintenance_timeslot d)) d)
    end.

(** Collaborators whose roll-forward routine is the idempotent one. *)
Definition with_rollforward (next : Maintenance -> Time -> Time * Time)
    (base : Collaborators) : Collaborators :=
  {| toJSON := @toJSON base;
     generateTimeslot := spec_generateTimeslot next;
     CacheableDnsHttpAgent_update := @CacheableDnsHttpAgent_update base;
     dayjs_tz_format := @dayjs_tz_format base;
     dayjs_tz_guess := @dayjs_tz_guess base;
     https_createServer := @https_createServer base |}.

(** The state of the timeslot table during a pass over the beans [l]: ids
    are keys, and every bean still has a row that differs from it in the
    flag at most. *)
Definition table_ok (l rows : list MaintenanceTimeslot) : Prop :=
  List.NoDup (map ts_id rows)
  /\ forall s, In s l -> In (flagged s) (map flagged rows).

(** The slot [ts] has a row, and its row has [generated_next] set. *)
Definition is_flagged (ts : MaintenanceTimeslot) (rows : list MaintenanceTimeslot) : Prop :=
  In (ts_id ts) (map ts_id rows)
  /\ forall row, In row rows -> ts_id row = ts_id ts -> generated_next row = true.

(** How many rows stand for the occurrence [slot] of maintenance [mid]. *)
Definition count_slot (mid : Z) (slot : Time * Time) (rows : list MaintenanceTimeslot) : nat :=
  length (List.filter (same_slot mid slot) rows).

(** The rows that stand for the successor of [ts], a slot of window [m]. *)
Definition successors (next : Maintenance -> Time -> Time * Time)
    (m : Maintenance) (ts : MaintenanceTimeslot) (d : Database) : list MaintenanceTimeslot :=
  List.filter (same_slot (mnt_id m) (next m (end_date ts))) (maintenance_timeslot d).

(** ** Sample collaborators, worlds and connections *)

(** The zone a host in UTC reports: its own with [TZ] unset, "Etc/Unknown"
    for an empty [TZ], else the zone that [TZ] names. *)
Definition utc_host_guess (tz : option string) : string :=
  match tz with
  | None => "UTC"
  | Some z => if String.eqb z "" then "Etc/Unknown" else z
  end.

(** A key or a certificate is taken as usable when it is PEM-armoured. *)
Definition pem_createServer (key cert : string) : option Error :=
  if String.prefix "-----BEGIN" key && String.prefix "-----BEGIN" cert then None
  else Some "Error: error:0909006C:PEM routines:get_name:no start line".

(** A window that recurs every day: the next slot after an end time starts
    23 hours later and lasts one hour. *)
Definition daily (m : Maintenance) (previous_end : Time) : Time * Time :=
  (previous_end + 82800, previous_end + 86400).

Definition sample_collaborators : Collaborators :=
  {| toJSON := fun m _ d =>
       (Returned (JsonObject [("id", JsonNumber (mnt_id m)); ("title", JsonString (title m))]), d);
     generateTimeslot := spec_generateTimeslot daily;
     CacheableDnsHttpAgent_update := fun _ d => (Returned tt, d);
     dayjs_tz_format := fun _ _ => Returned "2022-10-15T12:00:00+00:00";
     dayjs_tz_guess := utc_host_guess;
     https_createServer := pem_createServer |}.

(** Collaborators whose DNS cache cannot be refreshed. *)
Definition offline_collaborators : Collaborators :=
  {| toJSON := @toJSON sample_collaborators;
     generateTimeslot := spec_generateTimeslot daily;
     CacheableDnsHttpAgent_update := fun _ d => (Thrown "Error: DNS cache unavailable", d);
     dayjs_tz_format := fun _ _ => Returned "2022-10-15T12:00:00+00:00";
     dayjs_tz_guess := utc_host_guess;
     https_createServer := pem_createServer |}.

(** Collaborators whose date library rejects the default zone. *)
Definition zoneless_collaborators : Collaborators :=
  {| toJSON := @toJSON sample_collaborators;
     generateTimeslot := spec_generateTimeslot daily;
     CacheableDnsHttpAgent_update := fun _ d => (Returned tt, d);
     dayjs_tz_format := fun _ _ => Thrown "RangeError: Invalid time zone specified";
     dayjs_tz_guess := fun _ => "Nowhere/Land";
     https_createServer := pem_createServer |}.

Definition empty_db : Database :=
  {| setting := ∅; maintenance := []; maintenance_timeslot := [] |}.

Definition empty_world : World :=
  {| db := empty_db; now := 0; env := ∅; files := ∅; dayjsDefault := None;
     heap := []; instance := None; timers := []; events := [] |}.

(** A world in which the setting [trustProxy] is on. *)
Definition trusting_world : World :=
  with_db (with_setting {["trustProxy" := {| value := JsBool true; category := Some "general" |}]}
             empty_db) empty_world.

(** A connection through a proxy that forwards two hops. *)
Definition proxied_socket : Socket :=
  {| userID := 1;
     headers := {["x-forwarded-for" := "1.2.3.4, 5.6.7.8"; "x-real-ip" := "9.9.9.9"]};
     remoteAddress := Some "::ffff:10.0.0.1" |}.

(** A connection whose proxy forwards an IPv4-mapped IPv6 address. *)
Definition mapped_socket : Socket :=
  {| userID := 1;
     headers := {["x-forwarded-for" := "::ffff:1.2.3.4"]};
     remoteAddress := Some "::ffff:10.0.0.1" |}.

(** A freshly started process whose bundled page is installed. *)
Definition installed_world : World :=
  {| db := empty_db; now := 0; env := ∅;
     files := {["./dist/index.html" := "<!DOCTYPE html>"]};
     dayjsDefault := None; heap := []; instance := None; timers := []; events := [] |}.

Definition nightly : Maintenance :=
  {| mnt_id := 1; user_id := 1; mnt_end_date := 2000000; title := "Nightly backup" |}.

(** A due slot of the window [nightly]. *)
Definition slot_a : MaintenanceTimeslot :=
  {| ts_id := 1; maintenance_id := 1; start_date := 1000; end_date := 4600;
     generated_next := false |}.

(** A due slot whose window is not in the database. *)
Definition slot_orphan : MaintenanceTimeslot :=
  {| ts_id := 2; maintenance_id := 99; start_date := 500; end_date := 900;
     generated_next := false |}.

(** A running server (one object, the singleton) with one due slot. *)
Definition running_world : World :=
  {| db := {| setting := ∅; maintenance := [nightly]; maintenance_timeslot := [slot_a] |};
     now := 5000; env := ∅; files := ∅; dayjsDefault := None;
     heap := [{| https := false; indexHTML := "";
                 generateMaintenanceTimeslotsInterval := None |}];
     instance := Some 0%nat; timers := []; events := [] |}.

(** The same with an orphan slot that the query returns first. *)
Definition orphan_world : World :=
  with_db {| setting := ∅; maintenance := [nightly];
             maintenance_timeslot := [slot_orphan; slot_a] |} running_world.

(** ** Further parts of the server *)

(** [args[name] || process.env[first] || process.env[second] || undefined],
    as the constructor resolves the key and the certificate. *)
Definition resolve_ssl (args e : gmap string string) (name first second : string)
    : option string :=
  js_or (js_or (js_or (args !! name) (e !! first)) (e !! second)) None.

(** A row of table [monitor] (the columns the server's query uses). *)
Record Monitor : Type := {
  mon_id : Z;
  mon_user_id : Z;
  weight : Z;
  name : string
}.

(** [ORDER BY weight DESC, name] *)
Definition monitor_before (a b : Monitor) : bool :=
  (weight b <? weight a)
  || ((weight a =? weight b) && String.leb (name a) (name b)).

Section Monitors.

(** The table [monitor] as it is when the list is asked for (the server
    reads it once, with [R.find]), and [monitor.toJSON()] of ./model/monitor. *)
Variable monitor : list Monitor.
Variable monitor_toJSON : Monitor -> External Json.

(** [R.find("monitor", " user_id = ? ORDER BY weight DESC, name", [userID])] *)
Definition find_monitor (uid : Z) : Async (list Monitor) :=
  ret (merge_sort (fun a b => Is_true (monitor_before a b))
         (List.filter (fun m => mon_user_id m =? uid) monitor)).

(** The loop of [getMonitorJSONList]: [result[monitor.id] = await monitor.toJSON()] *)
Fixpoint monitor_toJSON_each (l : list Monitor) (result : gmap Z Json)
    : Async (gmap Z Json) :=
  match l with
  | [] => ret result
  | m :: rest =>
      json <- call (monitor_toJSON m) ;;
      monitor_toJSON_each rest (<[mon_id m := json]> result)
  end.

Definition getMonitorJSONList (uid : Z) : Async (gmap Z Json) :=
  monitorList <- find_monitor uid ;;
  monitor_toJSON_each monitorList ∅.

Definition sendMonitorList (socket : Socket) : Async (gmap Z Json) :=
  list <- getMonitorJSONList (userID socket) ;;
  emit (userID socket) "monitorList" list ;;
  ret list.

End Monitors.

(** A roll-forward routine that keeps the timeslot rows it finds: it may add
    rows, it removes and changes none. *)
Definition rollforward_keeps_rows `{Collaborators} : Prop :=
  forall maintenance minDate removeExist t d row,
    In row (maintenance_timeslot d) ->
    In row (maintenance_timeslot (generateTimeslot maintenance minDate removeExist t d).2).

(** A flagged slot and a slot that starts in the future, both of [nightly]. *)
Definition slot_done : MaintenanceTimeslot :=
  {| ts_id := 3; maintenance_id := 1; start_date := 100; end_date := 200;
     generated_next := true |}.

Definition slot_future : MaintenanceTimeslot :=
  {| ts_id := 4; maintenance_id := 1; start_date := 90000; end_date := 93600;
     generated_next := false |}.

(** A running server whose table holds a due slot, a flagged one and a
    future one. *)
Definition mixed_world : World :=
  with_db {| setting := ∅; maintenance := [nightly];
             maintenance_timeslot := [slot_done; slot_a; slot_future] |} running_world.

(** Two worlds with the same process state: they differ in the database
    and in the record of events at most. *)
Definition same_process (w w' : World) : Prop :=
  (now w', env w', files w', dayjsDefault w', heap w', instance w', timers w')
  = (now w, env w, files w, dayjsDefault w, heap w, instance w, timers w).

(** The timer that [initAfterDatabaseReady] arms. *)
Definition pass_timer : Timer :=
  {| callback := "generateMaintenanceTimeslots"; period := 60000 |}.

(** [this.generateMaintenanceTimeslotsInterval = handle] *)
Definition set_interval (handle : nat) (s : UptimeKumaServer) : UptimeKumaServer :=
  {| https := https s; indexHTML := indexHTML s;
     generateMaintenanceTimeslotsInterval := Some handle |}.

(** ** What the words of the claims mean *)

Fixpoint all_space (s : string) : bool :=
  match s with
  | EmptyString => true
  | String c r => is_js_space c && all_space r
  end.

Definition starts_with_space (s : string) : bool :=
  match s with
  | EmptyString => false
  | String c _ => is_js_space c
  end.

Fixpoint ends_with_space (s : string) : bool :=
  match s with
  | EmptyString => false
  | String c EmptyString => is_js_space c
  | String _ r => ends_with_space r
  end.

(** [entry] is the first comma-separated entry of [s]: it holds no comma,
    and [s] is [entry], or [entry] followed by a comma and more. *)
Definition is_first_entry (s entry : string) : Prop :=
  contains "," entry = false
  /\ (s = entry \/ exists rest, s = entry +:+ "," +:+ rest).

(** [r] is [s] trimmed: [s] is white space, [r], white space, and [r]
    neither starts nor ends with white space. *)
Definition is_trimmed_of (s r : string) : Prop :=
  exists lead trail,
    s = lead +:+ r +:+ trail
    /\ all_space lead = true /\ all_space trail = true
    /\ starts_with_space r = false /\ ends_with_space r = false.

(** The connection has no usable [x-forwarded-for]: no such header, or one
    whose first entry is white space only. *)
Definition no_forwarded_entry (socket : Socket) : Prop :=
  headers socket !! "x-forwarded-for" = None
  \/ exists f entry, headers socket !! "x-forwarded-for" = Some f
       /\ is_first_entry f entry /\ all_space entry = true.

(** A connection whose proxy pads the entries with white space. *)
Definition spaced_socket : Socket :=
  {| userID := 1;
     headers := {["x-forwarded-for" := "  1.2.3.4 , 5.6.7.8"]};
     remoteAddress := Some "::ffff:10.0.0.1" |}.

(** [win] is the owning window of the slot, as the database has it: a row
    of table [maintenance] with the id that the slot refers to, or nothing
    when no row has that id. *)
Definition owning_window (d : Database) (ts : MaintenanceTimeslot)
    (win : option Maintenance) : Prop :=
  match win with
  | Some m => In m (maintenance d) /\ mnt_id m = maintenance_id ts
  | None => forall m, In m (maintenance d) -> mnt_id m <> maintenance_id ts
  end.

(** The slot [ts] has been persisted with [generated_next] set: the table
    [after] is the table [before] in which every row with the id of [ts]
    holds the columns of [ts] and the flag, and every other row is as it
    was. *)
Definition flag_persisted (ts : MaintenanceTimeslot)
    (before after : list MaintenanceTimeslot) : Prop :=
  length after = length before
  /\ forall (i : nat) row, before !! i = Some row ->
       exists row', after !! i = Some row'
         /\ (ts_id row <> ts_id ts -> row' = row)
         /\ (ts_id row = ts_id ts ->
             generated_next row' = true /\ ts_id row' = ts_id ts
             /\ maintenance_id row' = maintenance_id ts
             /\ start_date row' = start_date ts /\ end_date row' = end_date ts).

Section Passes.

Context `{Collaborators}.

(** The slots of a list have been handled one after the other, each one
    rolled forward and then flagged: for each slot the roll-forward routine
    was called with the slot's owning window and the slot's end time, it
    returned, and after that (on the database that it left) the slot was
    persisted with the flag set; nothing else has changed. *)
Inductive rolled_then_flagged : list MaintenanceTimeslot -> World -> World -> Prop :=
| rtf_nil w : rolled_then_flagged [] w w
| rtf_cons ts l w win d w1 w2 :
    owning_window (db w) ts win ->
    generateTimeslot win (end_date ts) false (now w) (db w) = (Returned tt, d) ->
    setting (db w1) = setting d ->
    maintenance (db w1) = maintenance d ->
    flag_persisted ts (maintenance_timeslot d) (maintenance_timeslot (db w1)) ->
    events w1 = events w ++
      [RolledForward ts;
       Stored {| ts_id := ts_id ts; maintenance_id := maintenance_id ts;
                 start_date := start_date ts; end_date := end_date ts;
                 generated_next := true |}] ->
    same_process w w1 ->
    rolled_then_flagged l w1 w2 ->
    rolled_then_flagged (ts :: l) w w2.

End Passes.

(** ** Strings *)

Lemma match_to_last_colon_single_line s :
  single_line s = true -> match_to_last_colon s = after_last_colon s.
Proof.
  unfold single_line. induction s as [|c r IH]; simpl; [done|].
  intros Hs. apply andb_prop in Hs as [H1 H2].
  apply negb_true_iff in H1, H2.
  apply orb_false_iff in H1 as [Hc1 Hr1], H2 as [Hc2 Hr2].
  assert (is_line_terminator c = false) as ->.
  { unfold is_line_terminator. apply orb_false_iff.
    split; apply Nat.eqb_neq; intros Hn.
    - apply Ascii.eqb_neq in Hc1. apply Hc1.
      rewrite <- (ascii_nat_embedding c), Hn. reflexivity.
    - apply Ascii.eqb_neq in Hc2. apply Hc2.
      rewrite <- (ascii_nat_embedding c), Hn. reflexivity. }
  rewrite IH; [done|]. by rewrite Hr1, Hr2.
Qed.

Lemma after_last_colon_None s :
  after_last_colon s = None -> contains ":" s = false.
Proof.
  induction s as [|c r IH]; simpl; [done|].
  destruct (after_last_colon r); [done|].
  destruct (Ascii.eqb c ":"); [done|]. intros _. by rewrite IH.
Qed.

Lemma after_last_colon_Some s t :
  after_last_colon s = Some t -> contains ":" t = false.
Proof.
  induction s as [|c r IH]; simpl; [done|].
  destruct (after_last_colon r) as [u|] eqn:Hr.
  - intros [= <-]. by apply IH.
  - destruct (Ascii.eqb c ":"); [|done].
    intros [= <-]. by apply after_last_colon_None.
Qed.

Lemma spec_strip_no_colon s : contains ":" (spec_strip s) = false.
Proof.
  unfold spec_strip. destruct (after_last_colon s) as [t|] eqn:Hs; simpl.
  - by eapply after_last_colon_Some.
  - by apply after_last_colon_None.
Qed.

Lemma spec_strip_id s : contains ":" s = false -> spec_strip s = s.
Proof.
  unfold spec_strip. destruct (after_last_colon s) as [t|] eqn:Hs; [|done].
  intros Hc. exfalso. revert t Hs. induction s as [|c r IH]; simpl in *; [done|].
  apply orb_false_iff in Hc as [Hc Hr]. intros t.
  destruct (after_last_colon r) as [u|]; [by eauto|]. by rewrite Hc.
Qed.

Lemma replace_to_last_colon_spec s :
  single_line s = true -> replace_to_last_colon s = spec_strip s.
Proof.
  intros Hs. unfold replace_to_last_colon, spec_strip.
  by rewrite match_to_last_colon_single_line.
Qed.

(** *** The first entry of a comma-separated list *)

Lemma contains_split_head c s : contains c (split_head c s) = false.
Proof.
  induction s as [|a r IH]; simpl; [done|].
  destruct (Ascii.eqb a c) eqn:Ha; simpl; [done|]. by rewrite Ha.
Qed.

Lemma split_head_no_sep c s : contains c s = false -> split_head c s = s.
Proof.
  induction s as [|a r IH]; simpl; [done|].
  intros Hc. apply orb_false_iff in Hc as [-> Hr]. by rewrite IH.
Qed.

Lemma split_head_app c s rest :
  contains c s = false -> split_head c (s +:+ String c rest) = s.
Proof.
  induction s as [|a r IH]; simpl.
  - by rewrite Ascii.eqb_refl.
  - intros Hc. apply orb_false_iff in Hc as [-> Hr]. by rewrite IH.
Qed.

Lemma first_entry_unique s entry : is_first_entry s entry -> entry = split_head "," s.
Proof.
  intros [Hc [->|[rest ->]]].
  - by rewrite split_head_no_sep.
  - change ("," +:+ rest) with (String "," rest). by rewrite split_head_app.
Qed.

Lemma first_entry_exists s : is_first_entry s (split_head "," s).
Proof.
  split; [apply contains_split_head|].
  induction s as [|a r IH]; simpl; [by left|].
  destruct (Ascii.eqb a ",") eqn:Ha.
  - apply Ascii.eqb_eq in Ha as ->. right. by exists r.
  - destruct IH as [IH|[rest IH]].
    + left. by rewrite <- IH.
    + right. exists rest.
      change (String a r = String a (split_head "," r +:+ "," +:+ rest)).
      by rewrite <- IH.
Qed.

(** *** Trimming *)

Lemma trimStart_all_space s : all_space s = true -> trimStart s = "".
Proof.
  induction s as [|a r IH]; simpl; [done|].
  intros Hs. apply andb_prop in Hs as [-> Hr]. by apply IH.
Qed.

Lemma trimStart_lead lead s : all_space lead = true -> trimStart (lead +:+ s) = trimStart s.
Proof.
  induction lead as [|a r IH]; simpl; [done|].
  intros Hs. apply andb_prop in Hs as [-> Hr]. by apply IH.
Qed.

Lemma trimStart_clean s : starts_with_space s = false -> trimStart s = s.
Proof. destruct s as [|a r]; simpl; [done|]. by intros ->. Qed.

Lemma trimEnd_all_space s : all_space s = true -> trimEnd s = "".
Proof.
  induction s as [|a r IH]; simpl; [done|].
  intros Hs. apply andb_prop in Hs as [Ha Hr]. by rewrite (IH Hr), Ha.
Qed.

Lemma trimEnd_trail s trail :
  all_space trail = true -> ends_with_space s = false -> trimEnd (s +:+ trail) = s.
Proof.
  intros Ht. induction s as [|a r IH]; intros Hs.
  - by apply trimEnd_all_space.
  - change (trimEnd (String a (r +:+ trail)) = String a r). cbn [trimEnd].
    destruct r as [|b r'].
    + simpl in Hs. change ("" +:+ trail) with trail.
      by rewrite (trimEnd_all_space _ Ht), Hs.
    + rewrite IH by done. done.
Qed.

Lemma trimmed_unique s r : is_trimmed_of s r -> r = trim s.
Proof.
  intros (lead & trail & -> & Hlead & Htrail & Hstart & Hend).
  unfold trim. rewrite (trimStart_lead _ _ Hlead).
  destruct r as [|a r'].
  - change ("" +:+ trail) with trail. by rewrite (trimStart_all_space _ Htrail).
  - rewrite trimStart_clean by done. by rewrite trimEnd_trail.
Qed.

Lemma trimStart_split s :
  exists lead, s = lead +:+ trimStart s
    /\ all_space lead = true /\ starts_with_space (trimStart s) = false.
Proof.
  induction s as [|a r IH]; simpl; [by exists ""|].
  destruct (is_js_space a) eqn:Ha.
  - destruct IH as (lead & Hr & Hlead & Hstart).
    exists (String a lead). split; [|split; [|done]].
    + change (String a r = String a (lead +:+ trimStart r)). by rewrite <- Hr.
    + simpl. by rewrite Ha.
  - exists "". split; [done|]. split; [done|]. simpl. exact Ha.
Qed.

Lemma trimEnd_split s :
  exists trail, s = trimEnd s +:+ trail
    /\ all_space trail = true /\ ends_with_space (trimEnd s) = false
    /\ (starts_with_space s = false -> starts_with_space (trimEnd s) = false).
Proof.
  induction s as [|a r IH]; [by exists ""|].
  destruct IH as (trail & Hr & Htrail & Hend & _). cbn [trimEnd].
  destruct (trimEnd r) as [|b u] eqn:Hu.
  - change ("" +:+ trail) with trail in Hr. destruct (is_js_space a) eqn:Ha.
    + exists (String a trail). split; [by rewrite Hr|]. split; [|done].
      simpl. by rewrite Ha.
    + exists trail. split; [|split; [done|split]].
      * change (String a r = String a ("" +:+ trail)). by rewrite Hr.
      * simpl. exact Ha.
      * done.
  - exists trail. split; [|split; [done|split; [done|]]].
    + change (String a r = String a (String b u +:+ trail)). by rewrite <- Hr.
    + done.
Qed.

Lemma trimmed_exists s : is_trimmed_of s (trim s).
Proof.
  destruct (trimStart_split s) as (lead & Hs & Hlead & Hstart).
  destruct (trimEnd_split (trimStart s)) as (trail & Ht & Htrail & Hend & Hkeep).
  exists lead, trail. unfold trim.
  split; [by rewrite <- Ht|]. split; [done|]. split; [done|]. split; [|done].
  by apply Hkeep.
Qed.

Lemma trim_all_space s : all_space s = true -> trim s = "".
Proof. intros Hs. unfold trim. by rewrite trimStart_all_space. Qed.

(** ** Client IP derivation *)

Section ClientIP.

Implicit Types (socket : Socket) (w : World).

Lemma getClientIP_trusting socket w :
  truthy (setting_value "trustProxy" w) = true ->
  getClientIP socket w =
    (Returned (js_or_str (js_or (forwardedFor_first socket) (headers socket !! "x-real-ip"))
                         (replace_to_last_colon (baseline socket))), w).
Proof.
  intros Ht. unfold getClientIP, bind, Settings_get, get. rewrite Ht.
  unfold ret, forwardedFor_first, baseline.
  by destruct (headers socket !! "x-forwarded-for"),
              (js_or (headers socket !! "cf-connecting-ip") (remoteAddress socket)).
Qed.

Lemma getClientIP_untrusting socket w :
  truthy (setting_value "trustProxy" w) = false ->
  getClientIP socket w = (Returned (replace_to_last_colon (baseline socket)), w).
Proof.
  intros Ht. unfold getClientIP, bind, Settings_get, get. rewrite Ht.
  unfold ret, baseline.
  by destruct (js_or (headers socket !! "cf-connecting-ip") (remoteAddress socket)).
Qed.

Lemma str_truthy_Some s : s <> "" -> str_truthy (Some s) = true.
Proof. intros Hs. simpl. by apply negb_true_iff, String.eqb_neq. Qed.

Lemma no_forwarded_entry_falsy socket :
  no_forwarded_entry socket -> str_truthy (forwardedFor_first socket) = false.
Proof.
  unfold forwardedFor_first. intros [->|(f & entry & -> & Hentry & Hspace)]; [done|].
  simpl. rewrite <- (first_entry_unique _ _ Hentry), (trim_all_space _ Hspace). done.
Qed.

(** C3: with [trustProxy] on, [getClientIP] returns the first
    comma-separated entry of [x-forwarded-for], trimmed (the entry without
    the white space around it), when that is not empty; else, with no such
    header or a first entry of white space only, the [x-real-ip] header when
    that is set and not empty; else the baseline (the [cf-connecting-ip]
    header or the remote address), which is returned colon-stripped and so
    as it is when it holds no colon.  With [x-forwarded-for] equal to
    "1.2.3.4, 5.6.7.8" the result is "1.2.3.4".  Every header value has a
    first entry, and every entry a trimmed form. *)
Theorem getClientIP_preference socket w :
  truthy (setting_value "trustProxy" w) = true ->
  (forall f entry r,
     headers socket !! "x-forwarded-for" = Some f ->
     is_first_entry f entry -> is_trimmed_of entry r -> r <> "" ->
     getClientIP socket w = (Returned r, w))
  /\ (no_forwarded_entry socket ->
      forall x, headers socket !! "x-real-ip" = Some x -> x <> "" ->
                getClientIP socket w = (Returned x, w))
  /\ (no_forwarded_entry socket ->
      headers socket !! "x-real-ip" = None \/ headers socket !! "x-real-ip" = Some "" ->
      getClientIP socket w = (Returned (replace_to_last_colon (baseline socket)), w)
      /\ (contains ":" (baseline socket) = false ->
          getClientIP socket w = (Returned (baseline socket), w)))
  /\ (headers socket !! "x-forwarded-for" = Some "1.2.3.4, 5.6.7.8" ->
      getClientIP socket w = (Returned "1.2.3.4", w))
  /\ (forall f, exists entry r, is_first_entry f entry /\ is_trimmed_of entry r).
Proof.
  intros Ht. rewrite (getClientIP_trusting _ _ Ht).
  assert (forall f, headers socket !! "x-forwarded-for" = Some f ->
                    trim (split_head "," f) <> "" ->
                    js_or_str (js_or (forwardedFor_first socket) (headers socket !! "x-real-ip"))
                      (replace_to_last_colon (baseline socket)) = trim (split_head "," f)) as Hfirst.
  { intros f Hf Hne. unfold forwardedFor_first. rewrite Hf. simpl.
    unfold js_or. rewrite (str_truthy_Some _ Hne). simpl.
    apply String.eqb_neq in Hne. by rewrite Hne. }
  split; [|split; [|split; [|split]]].
  - intros f entry r Hf Hentry Hr Hne.
    apply first_entry_unique in Hentry as ->. apply trimmed_unique in Hr as ->.
    by rewrite (Hfirst f Hf Hne).
  - intros Hx x Hr Hne. apply no_forwarded_entry_falsy in Hx.
    unfold js_or. rewrite Hx, Hr. simpl.
    apply String.eqb_neq in Hne. by rewrite Hne.
  - intros Hx Hr. apply no_forwarded_entry_falsy in Hx. unfold js_or. rewrite Hx.
    assert (js_or_str (headers socket !! "x-real-ip")
              (replace_to_last_colon (baseline socket))
            = replace_to_last_colon (baseline socket)) as ->.
    { by destruct Hr as [->| ->]. }
    split; [done|]. intros Hc.
    assert (replace_to_last_colon (baseline socket) = baseline socket) as ->; [|done].
    unfold replace_to_last_colon.
    destruct (match_to_last_colon (baseline socket)) as [t|] eqn:Hm; [|done].
    exfalso. revert t Hm Hc. generalize (baseline socket).
    induction s as [|c r IH]; simpl; [done|]. intros t.
    destruct (is_line_terminator c); [done|].
    intros Hm Hc. apply orb_false_iff in Hc as [Hc Hr'].
    destruct (match_to_last_colon r) as [u|]; [by eauto|].
    by rewrite Hc in Hm.
  - intros Hf. by rewrite (Hfirst _ Hf).
  - intros f. exists (split_head "," f), (trim (split_head "," f)).
    split; [apply first_entry_exists|apply trimmed_exists].
Qed.

Lemma getClientIP_preference_witness :
  truthy (setting_value "trustProxy" trusting_world) = true
  /\ headers spaced_socket !! "x-forwarded-for" = Some "  1.2.3.4 , 5.6.7.8"
  /\ is_first_entry "  1.2.3.4 , 5.6.7.8" "  1.2.3.4 "
  /\ is_trimmed_of "  1.2.3.4 " "1.2.3.4"
  /\ getClientIP spaced_socket trusting_world = (Returned "1.2.3.4", trusting_world)
  /\ getClientIP proxied_socket trusting_world = (Returned "1.2.3.4", trusting_world).
Proof.
  assert (is_first_entry "  1.2.3.4 , 5.6.7.8" "  1.2.3.4 ") as Hentry.
  { split; [reflexivity|]. right. by exists " 5.6.7.8". }
  assert (is_trimmed_of "  1.2.3.4 " "1.2.3.4") as Htrim.
  { exists "  ", " ". repeat split; reflexivity. }
  split; [reflexivity|]. split; [reflexivity|]. split; [exact Hentry|].
  split; [exact Htrim|]. split.
  - apply (proj1 (getClientIP_preference spaced_socket trusting_world eq_refl)
             "  1.2.3.4 , 5.6.7.8" "  1.2.3.4 " "1.2.3.4");
      [reflexivity|exact Hentry|exact Htrim|discriminate].
  - apply (getClientIP_preference proxied_socket trusting_world eq_refl). reflexivity.
Defined.



(** C5 as stated fails: with [trustProxy] on, an [x-forwarded-for] entry that
    holds colons is returned with its colons, where the specification's
    derivation strips it. *)
Lemma getClientIP_forwarded_not_stripped :
  (getClientIP mapped_socket trusting_world).1 = Returned "::ffff:1.2.3.4"
  /\ spec_resolveClientIP true mapped_socket = "1.2.3.4"
  /\ (getClientIP mapped_socket trusting_world).1
     <> Returned (spec_resolveClientIP (truthy (setting_value "trustProxy" trusting_world))
                                       mapped_socket).
Proof. split; [reflexivity|]. split; [reflexivity|]. discriminate. Qed.

(** C5, amended: the colon-stripping is applied to the baseline only.  The
    answer of [getClientIP] is either a forwarding header's value as it is
    (with [trustProxy] on: the first [x-forwarded-for] entry, trimmed, or
    else the [x-real-ip] header, neither of them stripped), or the baseline
    with the match of [/^.*:/] removed, which for a baseline on one line is
    the baseline without everything up to and including its last colon and
    holds no colon. *)
Theorem getClientIP_strips_baseline_only socket w :
  exists r, getClientIP socket w = (Returned r, w)
  /\ ((truthy (setting_value "trustProxy" w) = true
       /\ str_truthy (forwardedFor_first socket) = true
       /\ Some r = forwardedFor_first socket)
      \/ (truthy (setting_value "trustProxy" w) = true
          /\ str_truthy (forwardedFor_first socket) = false
          /\ str_truthy (headers socket !! "x-real-ip") = true
          /\ Some r = headers socket !! "x-real-ip")
      \/ ((truthy (setting_value "trustProxy" w) = false
           \/ (str_truthy (forwardedFor_first socket) = false
               /\ str_truthy (headers socket !! "x-real-ip") = false))
          /\ r = replace_to_last_colon (baseline socket)
          /\ (single_line (baseline socket) = true ->
              r = spec_strip (baseline socket) /\ contains ":" r = false))).
Proof.
  assert (forall r, r = replace_to_last_colon (baseline socket) ->
            single_line (baseline socket) = true ->
            r = spec_strip (baseline socket) /\ contains ":" r = false) as Hstrip.
  { intros r -> Hs. rewrite replace_to_last_colon_spec by done.
    split; [done|]. apply spec_strip_no_colon. }
  destruct (truthy (setting_value "trustProxy" w)) eqn:Ht.
  - rewrite (getClientIP_trusting _ _ Ht). eexists. split; [reflexivity|].
    unfold js_or.
    destruct (str_truthy (forwardedFor_first socket)) eqn:Hf.
    + left. repeat split.
      destruct (forwardedFor_first socket) as [f|]; simpl in *; [|done].
      apply negb_true_iff in Hf. by rewrite Hf.
    + right. destruct (str_truthy (headers socket !! "x-real-ip")) eqn:Hx.
      * left. repeat split.
        destruct (headers socket !! "x-real-ip") as [x|]; simpl in *; [|done].
        apply negb_true_iff in Hx. by rewrite Hx.
      * right. split; [by right|].
        assert (js_or_str (headers socket !! "x-real-ip")
                  (replace_to_last_colon (baseline socket))
                = replace_to_last_colon (baseline socket)) as ->; [|by auto].
        destruct (headers socket !! "x-real-ip") as [x|]; simpl in *; [|done].
        apply negb_false_iff in Hx. by rewrite Hx.
  - rewrite (getClientIP_untrusting _ _ Ht). eexists. split; [reflexivity|].
    right. right. split; [by left|]. by auto.
Qed.

End ClientIP.

(** ** Timezone *)

Section Timezone.

Context `{Collaborators}.

Lemma setTimezone_effect timezone w :
  setTimezone timezone w =
    (Returned tt,
     with_dayjsDefault (Some timezone)
       (with_env (<["TZ" := timezone]> (env w))
          (with_db (with_setting
                      (<["serverTimezone" := {| value := JsString timezone;
                                                 category := Some "general" |}]>
                         (setting (db w))) (db w)) w))).
Proof. reflexivity. Qed.

(** The empty string is no zone name, and it is not read back:
    [getTimezone] takes a stored setting only when it is truthy, and
    likewise the environment variable, so after [setTimezone("")] it answers
    with the zone that the host reports under an empty [TZ]. *)
Lemma setTimezone_empty_falls_back w :
  (setTimezone "" ;; getTimezone) w
  = (Returned (JsString (dayjs_tz_guess (Some ""))), (setTimezone "" w).2).
Proof.
  unfold bind at 1. rewrite setTimezone_effect.
  unfold getTimezone, bind, Settings_get, get, setting_value. simpl.
  rewrite !lookup_insert_eq. simpl. by rewrite lookup_insert_eq.
Qed.

(** C6: for every timezone string [tz], when [setTimezone(tz)] returns (it
    always does) the settings store holds [tz] under key [serverTimezone]
    in category "general", the environment variable [TZ] equals [tz] and the
    date library's default zone equals [tz]; and, a timezone string being
    the name of a zone and so not empty, a [getTimezone()] made after it
    returns [tz] and changes nothing. *)
Theorem setTimezone_getTimezone timezone w :
  let w' := (setTimezone timezone w).2 in
  setTimezone timezone w = (Returned tt, w')
  /\ setting (db w') !! "serverTimezone"
     = Some {| value := JsString timezone; category := Some "general" |}
  /\ env w' !! "TZ" = Some timezone
  /\ dayjsDefault w' = Some timezone
  /\ (timezone <> "" ->
      getTimezone w' = (Returned (JsString timezone), w')
      /\ (setTimezone timezone ;; getTimezone) w = (Returned (JsString timezone), w')).
Proof.
  rewrite setTimezone_effect. simpl.
  split; [done|]. split; [by rewrite lookup_insert_eq|].
  split; [by rewrite lookup_insert_eq|]. split; [done|].
  intros Hne.
  assert (forall v, getTimezone
            (with_dayjsDefault (Some timezone)
               (with_env (<["TZ" := timezone]> (env w))
                  (with_db (with_setting
                     (<["serverTimezone" := {| value := JsString timezone;
                                                category := Some "general" |}]>
                        (setting (db w))) (db w)) w))) = v ->
          v = (Returned (JsString timezone),
               with_dayjsDefault (Some timezone)
                 (with_env (<["TZ" := timezone]> (env w))
                    (with_db (with_setting
                       (<["serverTimezone" := {| value := JsString timezone;
                                                  category := Some "general" |}]>
                          (setting (db w))) (db w)) w)))) as Hget.
  { intros v <-. unfold getTimezone, bind, Settings_get, get, setting_value. simpl.
    rewrite lookup_insert_eq. simpl.
    apply String.eqb_neq in Hne. by rewrite Hne. }
  split; [by apply Hget|].
  unfold bind at 1. rewrite setTimezone_effect. by apply Hget.
Qed.

End Timezone.

Lemma setTimezone_getTimezone_witness :
  "Europe/London" <> ""
  /\ (setTimezone "Europe/London" ;; @getTimezone sample_collaborators) empty_world
     = (Returned (JsString "Europe/London"), (setTimezone "Europe/London" empty_world).2).
Proof.
  split; [discriminate|].
  apply (@setTimezone_getTimezone sample_collaborators "Europe/London" empty_world).
  discriminate.
Defined.


(** ** The singleton *)

Section Singleton.

Context `{Collaborators}.

Implicit Types (args : gmap string string) (w : World).

Lemma reads_throw {A} e : reads (@throw A e).
Proof. done. Qed.

Lemma reads_ret {A} (a : A) : reads (ret a).
Proof. done. Qed.

Lemma reads_exit {A} c : reads (@exit A c).
Proof. done. Qed.

Lemma reads_readFileSync path : reads (readFileSync path).
Proof. intros w. unfold readFileSync. by destruct (files w !! path). Qed.

Lemma reads_bind {A B} (m : Async A) (k : A -> Async B) :
  reads m -> (forall a, reads (k a)) -> reads (bind m k).
Proof.
  intros Hm Hk w. unfold bind. specialize (Hm w).
  destruct (m w) as [[a|e|c] w1]; simpl in *; subst; [apply Hk|done|done].
Qed.

Lemma reads_try_catch {A} (m : Async A) (h : Error -> Async A) :
  reads m -> (forall e, reads (h e)) -> reads (try_catch m h).
Proof.
  intros Hm Hh w. unfold try_catch. specialize (Hm w).
  destruct (m w) as [[a|e|c] w1]; simpl in *; subst; [done|apply Hh|done].
Qed.

Lemma reads_if {A} (b : bool) (m1 m2 : Async A) :
  reads m1 -> reads m2 -> reads (if b then m1 else m2).
Proof. by destruct b. Qed.

Lemma bind_reads {A B} (m : Async A) (k : A -> Async B) w :
  reads m ->
  bind m k w = match (m w).1 with
               | Returned a => k a w
               | Thrown e => (Thrown e, w)
               | Exited c => (Exited c, w)
               end.
Proof.
  intros Hm. unfold bind. specialize (Hm w).
  by destruct (m w) as [[a|e|c] w1]; simpl in *; subst.
Qed.

(** The constructor either fails, leaving the world as it was, or puts one
    new object at the end of the heap. *)
Lemma new_UptimeKumaServer_cases args w :
  match new_UptimeKumaServer args w with
  | (Returned r, w1) => exists obj, r = length (heap w) /\ w1 = with_heap (heap w ++ [obj]) w
  | (_, w1) => w1 = w
  end.
Proof.
  unfold new_UptimeKumaServer. unfold bind at 1, get at 1.
  rewrite bind_reads.
  2:{ apply reads_if; [|apply reads_ret].
      apply reads_bind; [apply reads_readFileSync|intros key].
      apply reads_bind; [apply reads_readFileSync|intros cert].
      destruct (https_createServer key cert); [apply reads_throw|apply reads_ret]. }
  match goal with |- context [(?m w).1] => destruct (m w).1 as [secure|e|c] end; [|done|done].
  rewrite bind_reads.
  2:{ apply reads_try_catch; [apply reads_readFileSync|].
      intros _. apply reads_if; [apply reads_ret|apply reads_exit]. }
  match goal with |- context [(?m w).1] => destruct (m w).1 as [html|e|c] end; [|done|done].
  simpl. eauto.
Qed.

Lemma new_UptimeKumaServer_instance args w :
  instance (new_UptimeKumaServer args w).2 = instance w.
Proof.
  pose proof (new_UptimeKumaServer_cases args w) as Hc.
  destruct (new_UptimeKumaServer args w) as [[r|e|c] w1]; simpl; [|by subst..].
  by destruct Hc as (obj & _ & ->).
Qed.

Lemma new_UptimeKumaServer_returned args w r w1 :
  new_UptimeKumaServer args w = (Returned r, w1) ->
  r = length (heap w) /\ is_Some (heap w1 !! r) /\ instance w1 = instance w.
Proof.
  intros Hnew. pose proof (new_UptimeKumaServer_cases args w) as Hc.
  rewrite Hnew in Hc. destruct Hc as (obj & -> & ->). split; [done|]. split; [|done].
  exists obj. simpl. by rewrite lookup_app_r, Nat.sub_diag.
Qed.

(** Once the static field holds an object, [getInstance] returns it and
    changes nothing, whatever the arguments. *)
Lemma getInstance_again args w r :
  instance w = Some r -> getInstance args w = (Returned (Some r), w).
Proof.
  intros Hi. unfold getInstance, bind, get. rewrite Hi. simpl. by rewrite Hi.
Qed.

(** C7: on the first call (the static field is null) [getInstance] runs the
    constructor; when the call returns, it returns a new object, which the
    static field holds from then on, and every later call, with any
    arguments and in any later state of the process that holds this field,
    returns that same object and changes nothing; two calls with different
    arguments yield the same object.  When the constructor throws or exits,
    nothing is created. *)
Theorem getInstance_singleton args w :
  instance w = None ->
  match getInstance args w with
  | (Returned o, w1) =>
      exists r, o = Some r /\ r = length (heap w) /\ is_Some (heap w1 !! r)
        /\ instance w1 = Some r
        /\ (forall args', getInstance args' w1 = (Returned (Some r), w1))
        /\ (forall args' w2, instance w2 = Some r ->
                             getInstance args' w2 = (Returned (Some r), w2))
  | (_, w1) => instance w1 = None
  end.
Proof.
  intros Hi. unfold getInstance, bind at 1, get at 1. rewrite Hi.
  unfold bind at 1, bind at 1.
  pose proof (new_UptimeKumaServer_instance args w) as Hkeep.
  destruct (new_UptimeKumaServer args w) as [[r|e|c] w1] eqn:Hnew; simpl in *.
  - apply new_UptimeKumaServer_returned in Hnew as (Hr & Hobj & _).
    exists r. split; [done|]. split; [done|]. split; [done|]. split; [done|].
    split; intros; by apply getInstance_again.
  - by rewrite Hkeep.
  - by rewrite Hkeep.
Qed.

End Singleton.

Lemma getInstance_singleton_witness :
  instance installed_world = None
  /\ exists w1, @getInstance sample_collaborators {["ssl-key" := ""]} installed_world
                = (Returned (Some 0%nat), w1)
       /\ @getInstance sample_collaborators {["port" := "3002"]} w1
          = (Returned (Some 0%nat), w1).
Proof.
  split; [reflexivity|].
  pose proof (@getInstance_singleton sample_collaborators
                {["ssl-key" := ""]} installed_world eq_refl) as Hs.
  destruct (@getInstance sample_collaborators {["ssl-key" := ""]} installed_world)
    as [[o|e|c] w1] eqn:Hg; [|discriminate Hg|discriminate Hg].
  destruct Hs as (r & -> & -> & _ & _ & Hlater & _).
  exists w1. split; [reflexivity|]. apply Hlater.
Defined.


(** ** The scheduler pass *)

Section Scheduler.

Context `{Collaborators}.

Implicit Types (w : World) (ts : MaintenanceTimeslot) (l : list MaintenanceTimeslot).

(** Either the roll-forward of a slot resolves, and then the slot is
    recorded as rolled forward and stored flagged, in this order; or it does
    not, and then nothing is recorded for the slot. *)
Lemma processTimeslot_events ts w :
  match processTimeslot ts w with
  | (Returned _, w') => events w' = events w ++ [RolledForward ts; Stored (flagged ts)]
  | (_, w') => events w' = events w
  end.
Proof.
  unfold processTimeslot, bind, load_maintenance, get, call.
  destruct (generateTimeslot _ _ _ _ _) as [[[]|e|c] d]; simpl; [|done|done].
  by rewrite <- app_assoc.
Qed.

(** The turn in full: the roll-forward gets the window that the slot refers
    to and the slot's end time; only when it returns is the slot's row
    written, flagged, into the database that the roll-forward left. *)
Lemma processTimeslot_run ts w :
  processTimeslot ts w =
    match generateTimeslot (window_of (db w) ts) (end_date ts) false (now w) (db w) with
    | (Returned _, d) =>
        (Returned tt,
         with_events (events w ++ [RolledForward ts; Stored (flagged ts)])
           (with_db (with_maintenance_timeslot
                       (update_row (flagged ts) (maintenance_timeslot d)) d) w))
    | (Thrown e, d) => (Thrown e, with_db d w)
    | (Exited c, d) => (Exited c, with_db d w)
    end.
Proof.
  unfold processTimeslot, R_store, bind, load_maintenance, get, call, mark, modify.
  destruct (generateTimeslot _ _ _ _ _) as [[[]|e|c] d]; simpl; [|done|done].
  unfold with_events, with_db. simpl. by rewrite <- app_assoc.
Qed.

Lemma forEachTimeslot_events l w :
  exists done rest,
    l = done ++ rest
    /\ events (forEachTimeslot l w).2 = events w ++ pass_events done
    /\ ((forEachTimeslot l w).1 = Returned tt <-> rest = []).
Proof.
  revert w. induction l as [|ts l IH]; intros w.
  - exists [], []. simpl. by rewrite app_nil_r.
  - simpl. unfold bind.
    pose proof (processTimeslot_events ts w) as Hts.
    destruct (processTimeslot ts w) as [[[]|e|c] w1].
    + destruct (IH w1) as (done & rest & -> & Hev & Hr).
      exists (ts :: done), rest. split; [done|]. split; [|done].
      rewrite Hev, Hts. simpl. by rewrite <- app_assoc.
    + exists [], (ts :: l). simpl. rewrite app_nil_r. by split; [|split].
    + exists [], (ts :: l). simpl. rewrite app_nil_r. by split; [|split].
Qed.

Lemma generateMaintenanceTimeslots_unfold w :
  generateMaintenanceTimeslots w = forEachTimeslot (due_timeslots w) w.
Proof. reflexivity. Qed.

Lemma owning_window_window_of d ts : owning_window d ts (window_of d ts).
Proof.
  unfold window_of, owning_window.
  destruct (find _ _) as [m|] eqn:Hfind.
  - apply find_some in Hfind as [Hin Hid]. by apply Z.eqb_eq in Hid.
  - intros m Hin. apply (find_none _ _ Hfind) in Hin. by apply Z.eqb_neq in Hin.
Qed.

Lemma flag_persisted_update_row ts rows :
  flag_persisted ts rows (update_row (flagged ts) rows).
Proof.
  unfold flag_persisted, update_row. split; [apply length_map|].
  induction rows as [|r rows IH]; intros i row Hi; [done|].
  destruct i as [|i]; simpl in *; [|by apply IH].
  injection Hi as ->. eexists. split; [done|].
  destruct (ts_id row =? ts_id ts) eqn:Hid.
  - apply Z.eqb_eq in Hid. split; [done|]. by intros _.
  - apply Z.eqb_neq in Hid. split; [done|]. done.
Qed.

Lemma due_timeslots_spec w ts :
  In ts (due_timeslots w) <->
  In ts (maintenance_timeslot (db w)) /\ generated_next ts = false /\ start_date ts <= now w.
Proof.
  unfold due_timeslots, is_due. rewrite filter_In, andb_true_iff, negb_true_iff, Z.leb_le.
  tauto.
Qed.

(** The loop, slot by slot: it handles a first part of the list, each slot
    rolled forward and then flagged, and either that is the whole list and
    the loop returns, or the roll-forward of the next slot does not return
    and the loop ends with its outcome, on the database that it left. *)
Lemma forEachTimeslot_rolled_then_flagged l w :
  exists done rest w1,
    l = done ++ rest
    /\ rolled_then_flagged done w w1
    /\ match rest with
       | [] => forEachTimeslot l w = (Returned tt, w1)
       | ts :: _ =>
           exists win o d,
             owning_window (db w1) ts win
             /\ generateTimeslot win (end_date ts) false (now w1) (db w1) = (o, d)
             /\ o <> Returned tt
             /\ forEachTimeslot l w = (o, with_db d w1)
       end.
Proof.
  revert w. induction l as [|ts l IH]; intros w.
  - exists [], [], w. split; [done|]. split; [apply rtf_nil|done].
  - simpl. unfold bind. rewrite processTimeslot_run.
    destruct (generateTimeslot (window_of (db w) ts) (end_date ts) false (now w) (db w))
      as [[[]|e|c] d] eqn:Hgen.
    + match goal with |- context [forEachTimeslot l ?w'] =>
        destruct (IH w') as (done & rest & w1 & -> & Hdone & Hrest) end.
      exists (ts :: done), rest, w1. split; [done|]. split; [|done].
      eapply rtf_cons; [apply owning_window_window_of|exact Hgen| | | | | |exact Hdone];
        [done|done|apply flag_persisted_update_row|done|done].
    + exists [], (ts :: l), w. split; [done|]. split; [apply rtf_nil|].
      exists (window_of (db w) ts), (Thrown e), d.
      split; [apply owning_window_window_of|]. by split; [|split].
    + exists [], (ts :: l), w. split; [done|]. split; [apply rtf_nil|].
      exists (window_of (db w) ts), (Exited c), d.
      split; [apply owning_window_window_of|]. by split; [|split].
Qed.

(** C1: in every pass, the slots that the query matched (the rows with
    [generated_next] unset and a start not after now) are taken in order.
    For each slot that the pass handles, the roll-forward routine is called
    with the slot's owning window and the slot's end time and returns, and
    only then, on the database that it left, is the slot's row persisted
    with [generated_next] set, every other row staying as it was.  The pass
    returns when it has handled every matched slot.  When the roll-forward
    of a slot does not return, the pass ends with that outcome on the
    database that the roll-forward left: neither that slot nor a later one
    has been flagged by the pass. *)
Theorem generateMaintenanceTimeslots_rollforward_then_flag w :
  exists done rest w1,
    due_timeslots w = done ++ rest
    /\ (forall ts, In ts (done ++ rest) <->
          In ts (maintenance_timeslot (db w))
          /\ generated_next ts = false /\ start_date ts <= now w)
    /\ rolled_then_flagged done w w1
    /\ match rest with
       | [] => generateMaintenanceTimeslots w = (Returned tt, w1)
       | ts :: _ =>
           exists win o d,
             owning_window (db w1) ts win
             /\ generateTimeslot win (end_date ts) false (now w1) (db w1) = (o, d)
             /\ o <> Returned tt
             /\ (generateMaintenanceTimeslots w).1 = o
             /\ db (generateMaintenanceTimeslots w).2 = d
             /\ events (generateMaintenanceTimeslots w).2 = events w1
             /\ same_process w1 (generateMaintenanceTimeslots w).2
       end.
Proof.
  rewrite generateMaintenanceTimeslots_unfold.
  destruct (forEachTimeslot_rolled_then_flagged (due_timeslots w) w)
    as (done & rest & w1 & Hdue & Hdone & Hrest).
  exists done, rest, w1. split; [done|]. split.
  { intros ts. rewrite <- Hdue. apply due_timeslots_spec. }
  split; [done|]. destruct rest as [|ts rest]; [done|].
  destruct Hrest as (win & o & d & Hwin & Hgen & Ho & ->).
  by exists win, o, d.
Qed.

Lemma bind_assoc_run {A B C} (m : Async A) (k : A -> Async B) (k' : B -> Async C) w :
  bind (bind m k) k' w = bind m (fun a => bind (k a) k') w.
Proof. unfold bind. by destruct (m w) as [[a|e|c] w1]. Qed.

Lemma forEachTimeslot_app l1 l2 w :
  forEachTimeslot (l1 ++ l2) w = (forEachTimeslot l1 ;; forEachTimeslot l2) w.
Proof.
  revert w. induction l1 as [|ts l1 IH]; intros w; [done|].
  simpl. unfold bind at 1. rewrite (bind_assoc_run _ _ _ w).
  unfold bind at 1.
  destruct (processTimeslot ts w) as [[[]|e|c] w1]; [|done|done].
  by rewrite IH.
Qed.

Lemma forEachTimeslot_returned_events l w w1 :
  forEachTimeslot l w = (Returned tt, w1) -> events w1 = events w ++ pass_events l.
Proof.
  intros Hl. destruct (forEachTimeslot_events l w) as (done & rest & -> & Hev & Hr).
  rewrite Hl in Hev, Hr. simpl in *.
  rewrite (proj1 Hr eq_refl), app_nil_r. done.
Qed.

(** C8, amended: an error raised while one matched record is processed
    aborts the pass.  When the roll-forward of a record throws (as it does
    for a record whose window could not be loaded), the pass throws that
    error to its caller; the records before it have been rolled forward and
    flagged; that record is not flagged, and the records after it are not
    processed: the world is left as the failing roll-forward left it. *)
Theorem generateMaintenanceTimeslots_error_aborts w done ts rest w1 e d :
  due_timeslots w = done ++ ts :: rest ->
  forEachTimeslot done w = (Returned tt, w1) ->
  generateTimeslot (window_of (db w1) ts) (end_date ts) false (now w1) (db w1)
    = (Thrown e, d) ->
  generateMaintenanceTimeslots w = (Thrown e, with_db d w1)
  /\ events (generateMaintenanceTimeslots w).2 = events w ++ pass_events done.
Proof.
  intros Hdue Hdone Hgen.
  assert (generateMaintenanceTimeslots w = (Thrown e, with_db d w1)) as Hpass.
  { rewrite generateMaintenanceTimeslots_unfold, Hdue, forEachTimeslot_app.
    unfold bind at 1. rewrite Hdone. simpl. unfold bind at 1.
    unfold processTimeslot, bind at 1, load_maintenance, get, bind at 1, call.
    by rewrite Hgen. }
  split; [done|]. rewrite Hpass. simpl.
  by apply forEachTimeslot_returned_events.
Qed.

End Scheduler.

Lemma generateMaintenanceTimeslots_error_aborts_witness :
  due_timeslots orphan_world = [] ++ slot_orphan :: [slot_a]
  /\ @generateMaintenanceTimeslots sample_collaborators orphan_world
     = (Thrown "TypeError: Cannot read properties of null", orphan_world).
Proof.
  split; [reflexivity|].
  apply (@generateMaintenanceTimeslots_error_aborts sample_collaborators
           orphan_world [] slot_orphan [slot_a] orphan_world
           "TypeError: Cannot read properties of null" (db orphan_world));
    reflexivity.
Defined.

(** C8 as stated fails: the query matches an orphan slot and a sibling; the
    roll-forward of the orphan throws, the pass throws with it, and the
    sibling is neither rolled forward nor flagged. *)
Lemma generateMaintenanceTimeslots_sibling_not_processed :
  let after := (@generateMaintenanceTimeslots sample_collaborators orphan_world).2 in
  due_timeslots orphan_world = [slot_orphan; slot_a]
  /\ (@generateMaintenanceTimeslots sample_collaborators orphan_world).1
     = Thrown "TypeError: Cannot read properties of null"
  /\ slot_a ∈ maintenance_timeslot (db after)
  /\ generated_next slot_a = false
  /\ ~ In (RolledForward slot_a) (events after)
  /\ ~ In (Stored (flagged slot_a)) (events after).
Proof.
  simpl. split; [reflexivity|]. split; [reflexivity|].
  split; [apply list_elem_of_In; right; left; reflexivity|]. split; [reflexivity|].
  split; intros [].
Qed.

(** ** The maintenance list broadcast *)

Section Broadcast.

Context `{Collaborators}.






End Broadcast.

(** ** Start-up *)

Section Startup.

Context `{Collaborators}.

Lemma getTimezone_reads : reads getTimezone.
Proof.
  intros w. unfold getTimezone, bind, Settings_get, get.
  destruct (truthy (setting_value "serverTimezone" w)); [done|].
  by destruct (str_truthy (env w !! "TZ")).
Qed.

Lemma getTimezone_returns w : exists tz, getTimezone w = (Returned tz, w).
Proof.
  unfold getTimezone, bind, Settings_get, get.
  destruct (truthy (setting_value "serverTimezone" w)); [by eexists|].
  destruct (str_truthy (env w !! "TZ")); by eexists.
Qed.

(** C9, amended: a failure of step (1) or of step (2) of
    [initAfterDatabaseReady] is thrown to the caller, and steps (3) and (4)
    do not run.  When the refresh of the DNS cache throws, the call throws
    that error and the world is as the refresh left it.  When the refresh
    returns and the date library throws on the zone that was resolved and
    applied, the call throws that error; in both cases no scheduler pass
    was made (nothing is recorded, the timeslots are as step (1) left them)
    and no timer is armed. *)
Theorem initAfterDatabaseReady_failure_surfaces this w :
  (forall e d,
     CacheableDnsHttpAgent_update (now w) (db w) = (Thrown e, d) ->
     initAfterDatabaseReady this w = (Thrown e, with_db d w))
  /\ (forall e d tz,
        CacheableDnsHttpAgent_update (now w) (db w) = (Returned tt, d) ->
        (getTimezone (with_db d w)).1 = Returned tz ->
        dayjs_tz_format (Some (js_to_string tz)) (now w) = Thrown e ->
        exists w2, initAfterDatabaseReady this w = (Thrown e, w2)
          /\ db w2 = d /\ env w2 !! "TZ" = Some (js_to_string tz)
          /\ dayjsDefault w2 = Some (js_to_string tz)
          /\ timers w2 = timers w /\ events w2 = events w /\ heap w2 = heap w).
Proof.
  split.
  - intros e d Hdns. unfold initAfterDatabaseReady, bind at 1, call. by rewrite Hdns.
  - intros e d tz Hdns Htz Hfmt.
    unfold initAfterDatabaseReady, bind at 1, call. rewrite Hdns.
    unfold bind at 1. destruct (getTimezone_returns (with_db d w)) as (tz' & Hget).
    rewrite Hget in Htz |- *. simpl in Htz. injection Htz as ->.
    unfold bind at 1, modify at 1, bind at 1, get at 1, bind at 1, modify at 1, bind at 1.
    simpl. rewrite lookup_insert_eq, Hfmt.
    eexists. split; [reflexivity|]. simpl. by rewrite lookup_insert_eq.
Qed.

End Startup.

Lemma initAfterDatabaseReady_failure_surfaces_witness :
  @CacheableDnsHttpAgent_update offline_collaborators (now running_world) (db running_world)
    = (Thrown "Error: DNS cache unavailable", db running_world)
  /\ @initAfterDatabaseReady offline_collaborators 0 running_world
     = (Thrown "Error: DNS cache unavailable", running_world)
  /\ exists w2, @initAfterDatabaseReady zoneless_collaborators 0 running_world
                = (Thrown "RangeError: Invalid time zone specified", w2)
       /\ timers w2 = [].
Proof.
  split; [reflexivity|]. split.
  - apply (proj1 (@initAfterDatabaseReady_failure_surfaces offline_collaborators
                    0%nat running_world)
             "Error: DNS cache unavailable" (db running_world)).
    reflexivity.
  - destruct (proj2 (@initAfterDatabaseReady_failure_surfaces zoneless_collaborators
                       0%nat running_world)
                "RangeError: Invalid time zone specified" (db running_world)
                (JsString "Nowhere/Land") eq_refl eq_refl eq_refl)
      as (w2 & Hinit & _ & _ & _ & Ht & _).
    exists w2. split; [exact Hinit|exact Ht].
Defined.

(** When steps (1) and (2) return, the pass is made and the recurring pass
    is armed every 60,000 ms; the server keeps the handle. *)
Example initAfterDatabaseReady_starts_scheduler :
  let after := (@initAfterDatabaseReady sample_collaborators 0 running_world).2 in
  (@initAfterDatabaseReady sample_collaborators 0 running_world).1 = Returned tt
  /\ events after = [RolledForward slot_a; Stored (flagged slot_a)]
  /\ timers after = [{| callback := "generateMaintenanceTimeslots"; period := 60000 |}]
  /\ generateMaintenanceTimeslotsInterval <$> (heap after !! 0%nat) = Some (Some 0%nat)
  /\ env after !! "TZ" = Some "UTC"
  /\ dayjsDefault after = Some "UTC".
Proof. simpl. repeat split; reflexivity. Qed.

(** C9 as stated fails: when the refresh of the DNS cache throws,
    [initAfterDatabaseReady] throws; a slot is due and stays unflagged, no
    roll-forward is recorded, no timer is armed and the server's timer field
    is unset, so no pass will run later either. *)
Lemma initAfterDatabaseReady_scheduler_not_started :
  let after := (@initAfterDatabaseReady offline_collaborators 0 running_world).2 in
  (@initAfterDatabaseReady offline_collaborators 0 running_world).1
  = Thrown "Error: DNS cache unavailable"
  /\ due_timeslots after = [slot_a]
  /\ events after = []
  /\ timers after = []
  /\ generateMaintenanceTimeslotsInterval <$> (heap after !! 0%nat) = Some None.
Proof. simpl. repeat split; reflexivity. Qed.

(** ** The pass with an idempotent roll-forward routine *)

Section Rows.

Implicit Types (rows l : list MaintenanceTimeslot) (ts s t row : MaintenanceTimeslot).

Lemma fresh_id_above rows x : In x (map ts_id rows) -> x < fresh_id rows.
Proof.
  unfold fresh_id. induction rows as [|row rows IH]; simpl; [done|].
  intros [<-|Hx]; [lia|]. specialize (IH Hx). lia.
Qed.

Lemma NoDup_map_eq {A B} (f : A -> B) (xs : list A) x y :
  List.NoDup (map f xs) -> In x xs -> In y xs -> f x = f y -> x = y.
Proof.
  induction xs as [|a xs IH]; simpl; [done|].
  intros Hnd Hx Hy Hf. apply List.NoDup_cons_iff in Hnd as [Hna Hnd].
  destruct Hx as [->|Hx], Hy as [->|Hy]; [done| | |by apply IH].
  - exfalso. apply Hna. rewrite Hf. by apply in_map.
  - exfalso. apply Hna. rewrite <- Hf. by apply in_map.
Qed.

Lemma same_slot_flagged mid slot row :
  same_slot mid slot (flagged row) = same_slot mid slot row.
Proof. reflexivity. Qed.

Lemma count_slot_flagged mid slot rows :
  count_slot mid slot (map flagged rows) = count_slot mid slot rows.
Proof.
  unfold count_slot. induction rows as [|row rows IH]; simpl; [done|].
  rewrite same_slot_flagged. destruct (same_slot mid slot row); simpl; by rewrite IH.
Qed.

Lemma same_slot_new mid slot mid' slot' i g :
  same_slot mid' slot' {| ts_id := i; maintenance_id := mid; start_date := slot.1;
                          end_date := slot.2; generated_next := g |} = true ->
  forall row, same_slot mid' slot' row = same_slot mid slot row.
Proof.
  unfold same_slot. simpl. intros Hs row.
  apply andb_prop in Hs as [Hs He]. apply andb_prop in Hs as [Hm Hs].
  apply Z.eqb_eq in Hm, Hs, He. by rewrite Hm, Hs, He.
Qed.

Lemma existsb_false_count mid slot rows :
  existsb (same_slot mid slot) rows = false -> count_slot mid slot rows = 0%nat.
Proof.
  unfold count_slot. induction rows as [|row rows IH]; simpl; [done|].
  intros Hex. apply orb_false_iff in Hex as [-> Hex]. by apply IH.
Qed.

Lemma existsb_true_count mid slot rows :
  existsb (same_slot mid slot) rows = true -> (1 <= count_slot mid slot rows)%nat.
Proof.
  unfold count_slot. induction rows as [|row rows IH]; simpl; [done|].
  destruct (same_slot mid slot row); simpl; [lia|]. by apply IH.
Qed.

Lemma count_slot_app mid slot rows rows' :
  count_slot mid slot (rows ++ rows') = (count_slot mid slot rows + count_slot mid slot rows')%nat.
Proof. unfold count_slot. by rewrite List.filter_app, length_app. Qed.

(** *** The roll-forward persists a slot once *)

Lemma persist_once_incl mid slot rows row :
  In row rows -> In row (persist_once mid slot rows).
Proof.
  unfold persist_once. destruct (existsb _ _); [done|].
  intros Hr. apply in_or_app. by left.
Qed.

Lemma persist_once_NoDup mid slot rows :
  List.NoDup (map ts_id rows) -> List.NoDup (map ts_id (persist_once mid slot rows)).
Proof.
  unfold persist_once. destruct (existsb _ _); [done|].
  intros Hnd. rewrite map_app. simpl.
  apply List.NoDup_app; [done| |].
  - apply List.NoDup_cons; [intros []|apply List.NoDup_nil].
  - intros a Hin [<-|[]]. apply fresh_id_above in Hin. lia.
Qed.

Lemma persist_once_count mid slot mid' slot' rows :
  (count_slot mid' slot' rows <= count_slot mid' slot' (persist_once mid slot rows))%nat
  /\ ((count_slot mid' slot' rows <= 1)%nat ->
      (count_slot mid' slot' (persist_once mid slot rows) <= 1)%nat)
  /\ (1 <= count_slot mid slot (persist_once mid slot rows))%nat.
Proof.
  unfold persist_once. destruct (existsb _ _) eqn:Hex.
  - split; [done|]. split; [done|]. by apply existsb_true_count.
  - rewrite !count_slot_app.
    set (new := {| ts_id := fresh_id rows; maintenance_id := mid; start_date := slot.1;
                   end_date := slot.2; generated_next := false |}).
    assert (count_slot mid slot [new] = 1%nat) as Hnew.
    { unfold count_slot, same_slot. simpl. by rewrite !Z.eqb_refl. }
    split; [lia|]. split; [|lia].
    unfold count_slot at 3. simpl.
    destruct (same_slot mid' slot' new) eqn:Hs; simpl; [|lia].
    intros _. unfold count_slot.
    rewrite (List.filter_ext _ _ (same_slot_new _ _ _ _ _ _ Hs)).
    apply existsb_false_count in Hex. unfold count_slot in Hex. lia.
Qed.

Lemma persist_once_flagged mid slot rows s :
  is_flagged s rows -> is_flagged s (persist_once mid slot rows).
Proof.
  intros [Hid Hfl]. split.
  - apply in_map_iff in Hid as (row & Hrow & Hin). apply in_map_iff.
    exists row. split; [done|]. by apply persist_once_incl.
  - unfold persist_once. destruct (existsb _ _); [done|].
    intros row Hin Hrow. apply in_app_or in Hin as [Hin|[<-|[]]]; [by apply Hfl|].
    simpl in Hrow. apply fresh_id_above in Hid. lia.
Qed.

Lemma persist_once_table_ok mid slot l rows :
  table_ok l rows -> table_ok l (persist_once mid slot rows).
Proof.
  intros [Hnd Hl]. split; [by apply persist_once_NoDup|].
  intros s Hs. specialize (Hl s Hs). apply in_map_iff in Hl as (row & Hrow & Hin).
  apply in_map_iff. exists row. split; [done|]. by apply persist_once_incl.
Qed.

(** *** [R.store] of a flagged bean *)

Lemma update_row_ids t rows : map ts_id (update_row (flagged t) rows) = map ts_id rows.
Proof.
  unfold update_row. rewrite map_map. apply map_ext. intros row. simpl.
  destruct (ts_id row =? ts_id t) eqn:He; [|done].
  apply Z.eqb_eq in He. by rewrite He.
Qed.

Lemma update_row_erased t l rows :
  table_ok (t :: l) rows ->
  map flagged (update_row (flagged t) rows) = map flagged rows.
Proof.
  intros [Hnd Hl]. specialize (Hl t (or_introl eq_refl)).
  apply in_map_iff in Hl as (rt & Hrt & Hin).
  unfold update_row. rewrite map_map. apply map_ext_in.
  intros row Hrow. simpl. destruct (ts_id row =? ts_id t) eqn:He; [|done].
  apply Z.eqb_eq in He.
  assert (row = rt) as ->; [|done].
  apply (NoDup_map_eq ts_id rows); [done..|].
  rewrite He. by apply (f_equal ts_id) in Hrt.
Qed.

Lemma update_row_count t l rows mid slot :
  table_ok (t :: l) rows ->
  count_slot mid slot (update_row (flagged t) rows) = count_slot mid slot rows.
Proof.
  intros Hok. rewrite <- count_slot_flagged, (update_row_erased _ _ _ Hok).
  apply count_slot_flagged.
Qed.

Lemma update_row_table_ok t l rows :
  table_ok (t :: l) rows -> table_ok l (update_row (flagged t) rows).
Proof.
  intros Hok. split.
  - rewrite update_row_ids. apply Hok.
  - intros s Hs. rewrite (update_row_erased _ _ _ Hok). apply Hok. by right.
Qed.

Lemma update_row_keeps_flagged t rows s :
  is_flagged s rows -> is_flagged s (update_row (flagged t) rows).
Proof.
  intros [Hid Hfl]. split; [by rewrite update_row_ids|].
  intros row Hin Hrow. unfold update_row in Hin.
  apply in_map_iff in Hin as (row0 & Hrow0 & Hin).
  destruct (ts_id row0 =? ts_id (flagged t)) eqn:He; subst row; [done|].
  by apply Hfl.
Qed.

Lemma update_row_flags t l rows :
  table_ok (t :: l) rows -> is_flagged t (update_row (flagged t) rows).
Proof.
  intros [Hnd Hl]. specialize (Hl t (or_introl eq_refl)).
  apply in_map_iff in Hl as (rt & Hrt & Hin). split.
  - rewrite update_row_ids. apply in_map_iff. exists rt. split; [|done].
    by apply (f_equal ts_id) in Hrt.
  - intros row Hrow Hid. unfold update_row in Hrow.
    apply in_map_iff in Hrow as (row0 & Hrow0 & Hin0).
    destruct (ts_id row0 =? ts_id (flagged t)) eqn:He; subst row; [done|].
    apply Z.eqb_neq in He. by simpl in He.
Qed.

End Rows.

Section Idempotent.

Variable next : Maintenance -> Time -> Time * Time.
Variable base : Collaborators.

#[local] Abbreviation process := (@processTimeslot (with_rollforward next base)).
#[local] Abbreviation loop := (@forEachTimeslot (with_rollforward next base)).
#[local] Abbreviation pass := (@generateMaintenanceTimeslots (with_rollforward next base)).
#[local] Abbreviation rows w := (maintenance_timeslot (db w)).

Implicit Types (w : World) (l : list MaintenanceTimeslot) (ts s : MaintenanceTimeslot).

(** One turn of the loop: with no window the roll-forward throws and the
    tables stay as they are; with a window the successor is persisted once
    and the row of the slot is flagged. *)
Lemma process_step ts w :
  match window_of (db w) ts with
  | None => exists e w', process ts w = (Thrown e, w') /\ db w' = db w /\ now w' = now w
  | Some m =>
      exists w', process ts w = (Returned tt, w')
        /\ maintenance (db w') = maintenance (db w) /\ now w' = now w
        /\ rows w' = update_row (flagged ts)
                       (persist_once (mnt_id m) (next m (end_date ts)) (rows w))
  end.
Proof.
  destruct (window_of (db w) ts) as [m|] eqn:Hw.
  - eexists. split.
    + unfold processTimeslot, bind at 1, load_maintenance, get, bind at 1, call.
      rewrite Hw. reflexivity.
    + done.
  - eexists _, _. split.
    + unfold processTimeslot, bind at 1, load_maintenance, get, bind at 1, call.
      rewrite Hw. reflexivity.
    + done.
Qed.

Lemma window_of_maintenance d d' ts :
  maintenance d' = maintenance d -> window_of d' ts = window_of d ts.
Proof. unfold window_of. by intros ->. Qed.

(** Whatever the outcome of the loop: ids stay keys, no occurrence that had
    at most one row gets a second one, no row is lost, and a flagged slot
    stays flagged. *)
Lemma loop_invariant l w :
  table_ok l (rows w) ->
  maintenance (db (loop l w).2) = maintenance (db w)
  /\ now (loop l w).2 = now w
  /\ List.NoDup (map ts_id (rows (loop l w).2))
  /\ (forall mid slot,
        (count_slot mid slot (rows w) <= count_slot mid slot (rows (loop l w).2))%nat
        /\ ((count_slot mid slot (rows w) <= 1)%nat ->
            (count_slot mid slot (rows (loop l w).2) <= 1)%nat))
  /\ (forall s, is_flagged s (rows w) -> is_flagged s (rows (loop l w).2))
  /\ (forall r, In r (map flagged (rows w)) -> In r (map flagged (rows (loop l w).2))).
Proof.
  revert w. induction l as [|ts l IH]; intros w Hok.
  - simpl. split; [done|]. split; [done|]. split; [apply Hok|]. by split.
  - simpl. unfold bind. pose proof (process_step ts w) as Hstep.
    destruct (window_of (db w) ts) as [m|].
    + destruct Hstep as (w1 & -> & Hm & Hn & Hrows).
      assert (table_ok l (rows w1)) as Hok1.
      { rewrite Hrows. by apply update_row_table_ok, persist_once_table_ok. }
      destruct (IH w1 Hok1) as (Hm' & Hn' & Hnd & Hcount & Hfl & Hin).
      split; [congruence|]. split; [congruence|]. split; [done|]. split; [|split].
      * intros mid slot. destruct (Hcount mid slot) as [Hle Hone].
        rewrite Hrows in Hle, Hone.
        rewrite (update_row_count ts l) in Hle, Hone by by apply persist_once_table_ok.
        destruct (persist_once_count (mnt_id m) (next m (end_date ts)) mid slot (rows w))
          as (Hle0 & Hone0 & _).
        split; [lia|]. intros Hc. by apply Hone, Hone0.
      * intros s Hs. apply Hfl. rewrite Hrows.
        by apply update_row_keeps_flagged, persist_once_flagged.
      * intros r Hr. apply Hin. rewrite Hrows.
        rewrite (update_row_erased ts l) by by apply persist_once_table_ok.
        apply in_map_iff in Hr as (row & <- & Hrow).
        by apply in_map, persist_once_incl.
    + destruct Hstep as (e & w1 & -> & Hdb & Hn). simpl. rewrite Hdb.
      split; [done|]. split; [done|]. split; [apply Hok|]. by split.
Qed.

(** When every slot of the list has its window, the loop returns; every
    slot of the list is flagged then and has a successor row. *)
Lemma loop_returns l w :
  table_ok l (rows w) ->
  (forall s, In s l -> is_Some (window_of (db w) s)) ->
  (loop l w).1 = Returned tt
  /\ (forall s, In s l ->
        is_flagged s (rows (loop l w).2)
        /\ forall m, window_of (db w) s = Some m ->
             (1 <= count_slot (mnt_id m) (next m (end_date s)) (rows (loop l w).2))%nat).
Proof.
  revert w. induction l as [|ts l IH]; intros w Hok Hwin.
  - simpl. split; [done|]. intros s [].
  - simpl. unfold bind. pose proof (process_step ts w) as Hstep.
    destruct (Hwin ts (or_introl eq_refl)) as [m Hm]. rewrite Hm in Hstep.
    destruct Hstep as (w1 & -> & Hmnt & Hn & Hrows).
    assert (table_ok l (rows w1)) as Hok1.
    { rewrite Hrows. by apply update_row_table_ok, persist_once_table_ok. }
    assert (forall s, In s l -> is_Some (window_of (db w1) s)) as Hwin1.
    { intros s Hs. rewrite (window_of_maintenance _ _ _ Hmnt). apply Hwin. by right. }
    destruct (IH w1 Hok1 Hwin1) as [Hret Hall].
    destruct (loop_invariant l w1 Hok1) as (_ & _ & _ & Hcount & Hfl & _).
    split; [done|]. intros s [<-|Hs].
    + split.
      * apply Hfl. rewrite Hrows. eapply update_row_flags.
        by apply persist_once_table_ok.
      * intros m' Hm'. rewrite Hm in Hm'. injection Hm' as <-.
        destruct (Hcount (mnt_id m) (next m (end_date ts))) as [Hle _].
        rewrite Hrows in Hle.
        rewrite (update_row_count ts l) in Hle by by apply persist_once_table_ok.
        destruct (persist_once_count (mnt_id m) (next m (end_date ts))
                    (mnt_id m) (next m (end_date ts)) (rows w)) as (_ & _ & Hone).
        lia.
    + destruct (Hall s Hs) as [Hflagged Hsucc]. split; [done|].
      intros m' Hm'. apply Hsucc. by rewrite (window_of_maintenance _ _ _ Hmnt).
Qed.

Lemma due_table_ok w :
  List.NoDup (map ts_id (rows w)) -> table_ok (due_timeslots w) (rows w).
Proof.
  intros Hnd. split; [done|]. intros s Hs.
  apply filter_In in Hs as [Hs _]. by apply in_map.
Qed.

Lemma due_not_flagged w s ts :
  is_flagged ts (rows w) -> In s (due_timeslots w) -> ts_id s <> ts_id ts.
Proof.
  intros [_ Hfl] Hs Hid. apply filter_In in Hs as [Hs Hdue].
  specialize (Hfl s Hs Hid). unfold is_due in Hdue. by rewrite Hfl in Hdue.
Qed.

Lemma flagged_row_in s rows' :
  is_flagged s rows' -> In (flagged s) (map flagged rows') -> In (flagged s) rows'.
Proof.
  intros [_ Hfl] Hin. apply in_map_iff in Hin as (row & Hrow & Hin).
  assert (generated_next row = true) as Hg.
  { apply Hfl; [done|]. by apply (f_equal ts_id) in Hrow. }
  assert (flagged row = row) as Hid by (destruct row; simpl in *; by subst).
  by rewrite <- Hrow, Hid.
Qed.

Lemma table_ok_sub l l' rows' :
  (forall s, In s l' -> In s l) -> table_ok l rows' -> table_ok l' rows'.
Proof. intros Hsub [Hnd Hl]. split; [done|]. intros s Hs. by apply Hl, Hsub. Qed.

Lemma loop_app_returned l1 l2 w w1 :
  loop l1 w = (Returned tt, w1) -> loop (l1 ++ l2) w = loop l2 w1.
Proof. intros Hl. rewrite forEachTimeslot_app. unfold bind. by rewrite Hl. Qed.

(** C2, amended: let the roll-forward routine be idempotent, in a database
    whose timeslot ids are keys.  Take a slot [ts] that the query of a pass
    matches ([generated_next] unset and a start that is not after now),
    whose window is in the database and whose successor has at most one
    row so far, and let the slots matched before it have their windows.
    After the pass the row of [ts] has [generated_next] set and exactly one
    successor row exists; the pass returns when the slots matched after
    [ts] have their windows too.  A second pass, made at any later time on
    the database that the first pass left, does not select the slot again,
    and after it the slot is still flagged and exactly one successor row
    exists. *)
Theorem generateMaintenanceTimeslots_idempotent w done ts rest m :
  List.NoDup (map ts_id (rows w)) ->
  due_timeslots w = done ++ ts :: rest ->
  (forall s, In s done -> is_Some (window_of (db w) s)) ->
  window_of (db w) ts = Some m ->
  (length (successors next m ts (db w)) <= 1)%nat ->
  (generated_next ts = false /\ start_date ts <= now w /\ In ts (rows w))
  /\ In (flagged ts) (rows (pass w).2)
  /\ is_flagged ts (rows (pass w).2)
  /\ length (successors next m ts (db (pass w).2)) = 1%nat
  /\ ((forall s, In s rest -> is_Some (window_of (db w) s)) -> (pass w).1 = Returned tt)
  /\ forall w', db w' = db (pass w).2 ->
       (forall s, In s (due_timeslots w') -> ts_id s <> ts_id ts)
       /\ is_flagged ts (rows (pass w').2)
       /\ length (successors next m ts (db (pass w').2)) = 1%nat.
Proof.
  intros Hnd Hdue Hwin Hm Hsucc.
  assert (In ts (due_timeslots w)) as Hts.
  { rewrite Hdue. apply in_or_app. right. by left. }
  assert (generated_next ts = false /\ start_date ts <= now w /\ In ts (rows w))
    as (Hgen & Hstart & Hrow).
  { apply filter_In in Hts as [Hin Hd]. unfold is_due in Hd.
    apply andb_prop in Hd as [Hg Hs]. apply negb_true_iff in Hg.
    by apply Z.leb_le in Hs. }
  split; [done|].
  pose proof (due_table_ok w Hnd) as Hok. rewrite Hdue in Hok.
  (* the slots up to [ts] *)
  assert (table_ok (done ++ [ts]) (rows w)) as Hok1.
  { eapply table_ok_sub; [|exact Hok]. intros s Hs.
    apply in_app_or in Hs as [Hs|[<-|[]]]; apply in_or_app; [by left|right; by left]. }
  assert (forall s, In s (done ++ [ts]) -> is_Some (window_of (db w) s)) as Hwin1.
  { intros s Hs. apply in_app_or in Hs as [Hs|[<-|[]]]; [by apply Hwin|by exists m]. }
  destruct (loop_returns _ w Hok1 Hwin1) as [Hret Hall].
  destruct (Hall ts) as [Hfl Hone]; [apply in_or_app; right; by left|].
  specialize (Hone m Hm).
  destruct (loop_invariant _ w Hok1) as (Hmnt1 & _ & Hnd1 & Hcount1 & _ & Hin1).
  destruct (Hcount1 (mnt_id m) (next m (end_date ts))) as [_ Hmost1].
  specialize (Hmost1 Hsucc).
  destruct (loop (done ++ [ts]) w) as [r1 w1] eqn:Hloop1. simpl in *. subst r1.
  (* the slots after [ts] *)
  assert (table_ok rest (rows w1)) as Hok2.
  { split; [done|]. intros s Hs. apply Hin1, Hok. apply in_or_app. right. by right. }
  destruct (loop_invariant _ w1 Hok2) as (_ & _ & Hnd2 & Hcount2 & Hfl2 & Hin2).
  destruct (Hcount2 (mnt_id m) (next m (end_date ts))) as [Hle2 Hmost2].
  assert (pass w = loop rest w1) as Hpass.
  { rewrite generateMaintenanceTimeslots_unfold, Hdue.
    replace (done ++ ts :: rest) with ((done ++ [ts]) ++ rest) by by rewrite <- app_assoc.
    by apply loop_app_returned. }
  rewrite Hpass.
  split; [apply flagged_row_in; [by apply Hfl2|]; by apply Hin2, Hin1, in_map|].
  split; [by apply Hfl2|].
  split; [unfold successors; unfold count_slot in *; lia|].
  split.
  { intros Hwin2. apply loop_returns; [done|].
    intros s Hs. rewrite (window_of_maintenance _ _ _ Hmnt1). by apply Hwin2. }
  intros w' Hdb.
  assert (table_ok (due_timeslots w') (rows w')) as Hok'.
  { apply due_table_ok. by rewrite Hdb. }
  destruct (loop_invariant _ w' Hok') as (_ & _ & _ & Hcount' & Hfl' & _).
  destruct (Hcount' (mnt_id m) (next m (end_date ts))) as [Hle' Hmost'].
  rewrite Hdb in Hle', Hmost', Hfl'. rewrite generateMaintenanceTimeslots_unfold.
  split; [|split].
  - intros s Hs. apply (due_not_flagged w'); [|done]. rewrite Hdb. by apply Hfl2.
  - by apply Hfl', Hfl2.
  - unfold successors. unfold count_slot in *. lia.
Qed.

End Idempotent.

(** C2 as stated fails: with an idempotent roll-forward routine, a slot
    that is unflagged, has started and has its window is matched after an
    orphan slot; the roll-forward of the orphan throws and the pass with it,
    and the slot is left unflagged and without a successor. *)
Lemma generateMaintenanceTimeslots_due_slot_left_unflagged :
  let after := (@generateMaintenanceTimeslots (with_rollforward daily sample_collaborators)
                  orphan_world).2 in
  In slot_a (maintenance_timeslot (db orphan_world))
  /\ generated_next slot_a = false
  /\ start_date slot_a <= now orphan_world
  /\ window_of (db orphan_world) slot_a = Some nightly
  /\ (@generateMaintenanceTimeslots (with_rollforward daily sample_collaborators)
        orphan_world).1 = Thrown "TypeError: Cannot read properties of null"
  /\ In slot_a (maintenance_timeslot (db after))
  /\ ~ In (flagged slot_a) (maintenance_timeslot (db after))
  /\ successors daily nightly slot_a (db after) = [].
Proof.
  simpl. split; [right; by left|]. split; [reflexivity|]. split; [lia|].
  split; [reflexivity|]. split; [reflexivity|]. split; [right; by left|].
  split; [|reflexivity]. intros [Hin|[Hin|[]]]; discriminate Hin.
Qed.

Lemma generateMaintenanceTimeslots_idempotent_witness :
  due_timeslots running_world = [] ++ slot_a :: []
  /\ window_of (db running_world) slot_a = Some nightly
  /\ exists w1, @generateMaintenanceTimeslots (with_rollforward daily sample_collaborators)
                  running_world = (Returned tt, w1)
       /\ In (flagged slot_a) (maintenance_timeslot (db w1))
       /\ length (successors daily nightly slot_a (db w1)) = 1%nat
       /\ length (successors daily nightly slot_a
                    (db (@generateMaintenanceTimeslots
                           (with_rollforward daily sample_collaborators) w1).2)) = 1%nat.
Proof.
  split; [reflexivity|]. split; [reflexivity|].
  destruct (generateMaintenanceTimeslots_idempotent daily sample_collaborators
              running_world [] slot_a [] nightly)
    as (_ & Hin & _ & Hone & Hret & Hagain).
  - apply List.NoDup_cons; [intros []|apply List.NoDup_nil].
  - reflexivity.
  - intros s [].
  - reflexivity.
  - simpl. lia.
  - eexists. split; [|split; [exact Hin|split; [exact Hone|]]].
    + apply surjective_pairing.
    + apply (Hagain _ eq_refl).
Defined.

(** ** More on the timezone *)

Section TimezoneMore.

Context `{Collaborators}.

(** X3: of two [setTimezone] calls in a row the last one wins: the world
    after both is the world after the second alone. *)
Theorem setTimezone_overwrites tz1 tz2 w :
  (setTimezone tz1 ;; setTimezone tz2) w = setTimezone tz2 w.
Proof.
  unfold bind. rewrite !setTimezone_effect.
  unfold with_dayjsDefault, with_env, with_db, with_setting. simpl.
  by rewrite !insert_insert_eq.
Qed.

End TimezoneMore.

(** ** More on start-up *)

Section StartupMore.

Context `{Collaborators}.

Lemma processTimeslot_same_process ts w : same_process w (processTimeslot ts w).2.
Proof.
  rewrite processTimeslot_run.
  by destruct (generateTimeslot _ _ _ _ _) as [[[]|e|c] d].
Qed.

Lemma forEachTimeslot_same_process l w : same_process w (forEachTimeslot l w).2.
Proof.
  revert w. induction l as [|ts l IH]; intros w; [done|].
  simpl. unfold bind. pose proof (processTimeslot_same_process ts w) as Hts.
  destruct (processTimeslot ts w) as [[[]|e|c] w1]; simpl in *; [|done|done].
  specialize (IH w1). unfold same_process in *. by rewrite IH.
Qed.

(** The pass works on the database and on the record of events only. *)
Lemma generateMaintenanceTimeslots_same_process w :
  same_process w (generateMaintenanceTimeslots w).2.
Proof. rewrite generateMaintenanceTimeslots_unfold. apply forEachTimeslot_same_process. Qed.

(** A start-up that returns, step by step. *)
Lemma initAfterDatabaseReady_returned this w w' :
  initAfterDatabaseReady this w = (Returned tt, w') ->
  exists d tz w3,
    CacheableDnsHttpAgent_update (now w) (db w) = (Returned tt, d)
    /\ getTimezone (with_db d w) = (Returned tz, with_db d w)
    /\ generateMaintenanceTimeslots
         (with_dayjsDefault (Some (js_to_string tz))
            (with_env (<["TZ" := js_to_string tz]> (env w)) (with_db d w)))
       = (Returned tt, w3)
    /\ w' = with_heap (alter (set_interval (length (timers w3))) this (heap w3))
              (with_timers (timers w3 ++ [pass_timer]) w3).
Proof.
  unfold initAfterDatabaseReady, bind at 1, call.
  destruct (CacheableDnsHttpAgent_update (now w) (db w)) as [[[]|e|c] d]; [|done|done].
  unfold bind at 1. destruct (getTimezone_returns (with_db d w)) as (tz & Hget).
  rewrite Hget.
  unfold bind at 1, modify at 1, bind at 1, get at 1, bind at 1, modify at 1, bind at 1.
  simpl. rewrite lookup_insert_eq.
  destruct (dayjs_tz_format _ _) as [s|e|c]; [|done|done].
  unfold bind at 1.
  destruct (generateMaintenanceTimeslots _) as [[[]|e|c] w3] eqn:Hpass; [|done|done].
  unfold bind, setInterval, modify. intros [= <-].
  by exists d, tz, w3.
Qed.

(** X4: when [initAfterDatabaseReady] returns, the environment variable [TZ]
    and the date library's default zone both hold the timezone that
    [getTimezone] resolved after step (1), as a string; exactly one timer has
    been armed, for [generateMaintenanceTimeslots] every 60,000 ms, after the
    timers that were there; the server object keeps its handle in
    [generateMaintenanceTimeslotsInterval], and nothing else of the heap or
    of the singleton has changed. *)
Theorem initAfterDatabaseReady_arms_timer this w w' :
  initAfterDatabaseReady this w = (Returned tt, w') ->
  (exists d tz,
     CacheableDnsHttpAgent_update (now w) (db w) = (Returned tt, d)
     /\ getTimezone (with_db d w) = (Returned tz, with_db d w)
     /\ env w' !! "TZ" = Some (js_to_string tz)
     /\ dayjsDefault w' = Some (js_to_string tz))
  /\ timers w' = timers w ++ [pass_timer]
  /\ period pass_timer = 60000
  /\ heap w' = alter (set_interval (length (timers w))) this (heap w)
  /\ instance w' = instance w.
Proof.
  intros Hinit.
  destruct (initAfterDatabaseReady_returned _ _ _ Hinit) as (d & tz & w3 & Hd & Htz & Hpass & ->).
  pose proof (generateMaintenanceTimeslots_same_process
                (with_dayjsDefault (Some (js_to_string tz))
                   (with_env (<["TZ" := js_to_string tz]> (env w)) (with_db d w)))) as Hsame.
  rewrite Hpass in Hsame. unfold same_process in Hsame. simpl in Hsame.
  injection Hsame as Hnow Henv Hfiles Hzone Hheap Hinst Htimers.
  simpl. rewrite Henv, Hzone, Hheap, Hinst, Htimers.
  split.
  - exists d, tz. by rewrite lookup_insert_eq.
  - done.
Qed.

(** X5: [initAfterDatabaseReady] has no guard against a second run: when it
    returns twice, two timers are armed, and the server object holds the
    handle of the second one only. *)
Theorem initAfterDatabaseReady_twice this w w1 w2 obj :
  heap w !! this = Some obj ->
  initAfterDatabaseReady this w = (Returned tt, w1) ->
  initAfterDatabaseReady this w1 = (Returned tt, w2) ->
  timers w2 = timers w ++ [pass_timer; pass_timer]
  /\ heap w2 !! this = Some (set_interval (S (length (timers w))) obj)
  /\ forall other, other <> this -> heap w2 !! other = heap w !! other.
Proof.
  intros Hobj H1 H2.
  destruct (initAfterDatabaseReady_returned _ _ _ H1) as (d1 & tz1 & u1 & _ & _ & Hp1 & ->).
  pose proof (generateMaintenanceTimeslots_same_process
                (with_dayjsDefault (Some (js_to_string tz1))
                   (with_env (<["TZ" := js_to_string tz1]> (env w)) (with_db d1 w)))) as Hs1.
  rewrite Hp1 in Hs1. unfold same_process in Hs1. simpl in Hs1.
  injection Hs1 as _ _ _ _ Hheap1 _ Htimers1.
  destruct (initAfterDatabaseReady_returned _ _ _ H2) as (d2 & tz2 & u2 & _ & _ & Hp2 & ->).
  match type of Hp2 with generateMaintenanceTimeslots ?x = _ =>
    pose proof (generateMaintenanceTimeslots_same_process x) as Hs2 end.
  rewrite Hp2 in Hs2. unfold same_process in Hs2. simpl in Hs2.
  injection Hs2 as _ _ _ _ Hheap2 _ Htimers2.
  simpl. rewrite Hheap2, Htimers2, Hheap1, Htimers1. split; [|split].
  - by rewrite <- app_assoc.
  - rewrite !list_lookup_alter_eq, Hobj. simpl. rewrite length_app. simpl.
    rewrite Nat.add_1_r. reflexivity.
  - intros other Hne. by rewrite !list_lookup_alter_ne.
Qed.

End StartupMore.

Lemma initAfterDatabaseReady_arms_timer_witness :
  @initAfterDatabaseReady sample_collaborators 0 running_world
  = (Returned tt, (@initAfterDatabaseReady sample_collaborators 0 running_world).2)
  /\ timers (@initAfterDatabaseReady sample_collaborators 0 running_world).2 = [pass_timer].
Proof.
  split; [reflexivity|].
  apply (@initAfterDatabaseReady_arms_timer sample_collaborators 0%nat running_world).
  reflexivity.
Defined.

Lemma initAfterDatabaseReady_twice_witness :
  let w1 := (@initAfterDatabaseReady sample_collaborators 0 running_world).2 in
  let w2 := (@initAfterDatabaseReady sample_collaborators 0 w1).2 in
  heap running_world !! 0%nat
  = Some {| https := false; indexHTML := "";
            generateMaintenanceTimeslotsInterval := None |}
  /\ @initAfterDatabaseReady sample_collaborators 0 running_world = (Returned tt, w1)
  /\ @initAfterDatabaseReady sample_collaborators 0 w1 = (Returned tt, w2)
  /\ timers w2 = [pass_timer; pass_timer].
Proof.
  intros w1 w2.
  assert (@initAfterDatabaseReady sample_collaborators 0 running_world = (Returned tt, w1))
    as H1 by (vm_compute; reflexivity).
  assert (@initAfterDatabaseReady sample_collaborators 0 w1 = (Returned tt, w2))
    as H2 by (vm_compute; reflexivity).
  split; [reflexivity|]. split; [exact H1|]. split; [exact H2|].
  apply (@initAfterDatabaseReady_twice sample_collaborators 0%nat running_world w1 w2 _
           eq_refl H1 H2).
Defined.

(** ** More on the constructor and the singleton *)

Section ConstructorMore.

Context `{Collaborators}.

Implicit Types (args : gmap string string) (w : World).

(** The constructor, case by case. *)
Lemma new_UptimeKumaServer_run args w :
  let key := resolve_ssl args (env w) "ssl-key" "UPTIME_KUMA_SSL_KEY" "SSL_KEY" in
  let cert := resolve_ssl args (env w) "ssl-cert" "UPTIME_KUMA_SSL_CERT" "SSL_CERT" in
  let finish (secure : bool) :=
    match files w !! "./dist/index.html" with
    | Some html =>
        (Returned (length (heap w)),
         with_heap (heap w ++ [{| https := secure; indexHTML := html;
                                  generateMaintenanceTimeslotsInterval := None |}]) w)
    | None =>
        if bool_decide (env w !! "NODE_ENV" = Some "development")
        then (Returned (length (heap w)),
              with_heap (heap w ++ [{| https := secure; indexHTML := "";
                                       generateMaintenanceTimeslotsInterval := None |}]) w)
        else (Exited 1, w)
    end in
  new_UptimeKumaServer args w =
    if str_truthy key && str_truthy cert
    then match files w !! default "" key, files w !! default "" cert with
         | Some k, Some c =>
             match https_createServer k c with
             | Some e => (Thrown e, w)
             | None => finish true
             end
         | Some _, None =>
             (Thrown ("ENOENT: no such file or directory, open " +:+ default "" cert), w)
         | None, _ =>
             (Thrown ("ENOENT: no such file or directory, open " +:+ default "" key), w)
         end
    else finish false.
Proof.
  intros key cert finish.
  unfold new_UptimeKumaServer, bind at 1, get at 1.
  fold (resolve_ssl args (env w) "ssl-key" "UPTIME_KUMA_SSL_KEY" "SSL_KEY").
  fold (resolve_ssl args (env w) "ssl-cert" "UPTIME_KUMA_SSL_CERT" "SSL_CERT").
  fold key cert.
  assert (forall secure,
    (html <- try_catch (readFileSync "./dist/index.html")
               (fun _ => if bool_decide (env w !! "NODE_ENV" = Some "development")
                         then ret "" else exit 1) ;;
     h <- get heap ;;
     modify (with_heap (h ++ [{| https := secure; indexHTML := html;
                                 generateMaintenanceTimeslotsInterval := None |}])) ;;
     ret (length h)) w = finish secure) as Hfinish.
  { intros secure. subst finish. unfold bind at 1, try_catch, readFileSync. simpl.
    destruct (files w !! "./dist/index.html") as [html|]; [done|].
    unfold throw. by destruct (bool_decide _). }
  destruct (str_truthy key && str_truthy cert).
  - unfold bind at 1, bind at 1, readFileSync at 1.
    destruct (files w !! default "" key) as [k|]; [|done].
    unfold ret at 1, bind at 1, readFileSync at 1.
    destruct (files w !! default "" cert) as [c|]; [|done].
    unfold ret at 1. destruct (https_createServer k c) as [e|]; [done|].
    unfold ret at 1. apply Hfinish.
  - unfold bind at 1, ret at 1. apply Hfinish.
Qed.

(** X6: a missing ./dist/index.html is fatal outside development.  The
    constructor returns an object only if the page is there, or if
    [NODE_ENV] is "development"; the object's [indexHTML] is the page, or
    empty when there is none.  When the constructor exits, the exit code is
    1, the page is missing, [NODE_ENV] is not "development", and the world is
    as it was. *)
Theorem new_UptimeKumaServer_index args w :
  match new_UptimeKumaServer args w with
  | (Returned r, w') =>
      (exists obj, heap w' !! r = Some obj
         /\ indexHTML obj = default "" (files w !! "./dist/index.html"))
      /\ (files w !! "./dist/index.html" = None -> env w !! "NODE_ENV" = Some "development")
  | (Exited code, w') =>
      code = 1 /\ w' = w /\ files w !! "./dist/index.html" = None
      /\ env w !! "NODE_ENV" <> Some "development"
  | (Thrown _, _) => True
  end.
Proof.
  rewrite new_UptimeKumaServer_run.
  assert (forall secure,
    match
      match files w !! "./dist/index.html" with
      | Some html =>
          (Returned (length (heap w)),
           with_heap (heap w ++ [{| https := secure; indexHTML := html;
                                    generateMaintenanceTimeslotsInterval := None |}]) w)
      | None =>
          if bool_decide (env w !! "NODE_ENV" = Some "development")
          then (Returned (length (heap w)),
                with_heap (heap w ++ [{| https := secure; indexHTML := "";
                                         generateMaintenanceTimeslotsInterval := None |}]) w)
          else (Exited 1, w)
      end
    with
    | (Returned r, w') =>
        (exists obj, heap w' !! r = Some obj
           /\ indexHTML obj = default "" (files w !! "./dist/index.html"))
        /\ (files w !! "./dist/index.html" = None -> env w !! "NODE_ENV" = Some "development")
    | (Exited code, w') =>
        code = 1 /\ w' = w /\ files w !! "./dist/index.html" = None
        /\ env w !! "NODE_ENV" <> Some "development"
    | (Thrown _, _) => True
    end) as Hfinish.
  { intros secure. destruct (files w !! "./dist/index.html") as [html|] eqn:Hhtml.
    - split; [|done]. eexists. split.
      + simpl. by rewrite lookup_app_r, Nat.sub_diag.
      + done.
    - case_bool_decide as Hdev.
      + split; [|done]. eexists. split.
        * simpl. by rewrite lookup_app_r, Nat.sub_diag.
        * done.
      + done. }
  destruct (str_truthy _ && str_truthy _); [|apply Hfinish].
  destruct (files w !! default "" _) as [k|]; [|done].
  destruct (files w !! default "" _) as [c|]; [|done].
  destruct (https_createServer k c); [done|apply Hfinish].
Qed.


(** The first call: the constructor runs, and its object goes to the
    static field. *)
Lemma getInstance_first_run args w :
  instance w = None ->
  getInstance args w =
    match new_UptimeKumaServer args w with
    | (Returned r, w1) => (Returned (Some r), with_instance (Some r) w1)
    | (Thrown e, w1) => (Thrown e, w1)
    | (Exited c, w1) => (Exited c, w1)
    end.
Proof.
  intros Hi. unfold getInstance, bind at 1, get at 1. rewrite Hi.
  unfold bind at 1, bind at 1.
  by destruct (new_UptimeKumaServer args w) as [[r|e|c] w1].
Qed.

(** X8: a [getInstance] that does not return leaves no trace: when the
    static field is null and the call throws or exits, the world is as it
    was, so the next call runs the constructor again, with its own
    arguments. *)
Theorem getInstance_failure_retries args w :
  instance w = None ->
  (forall r, (getInstance args w).1 <> Returned r) ->
  (getInstance args w).2 = w
  /\ forall args', getInstance args' (getInstance args w).2 = getInstance args' w.
Proof.
  intros Hi Hfail.
  assert ((getInstance args w).2 = w) as Hw; [|by rewrite Hw].
  revert Hfail. rewrite (getInstance_first_run _ _ Hi).
  pose proof (new_UptimeKumaServer_cases args w) as Hnew.
  destruct (new_UptimeKumaServer args w) as [[r|e|c] w1]; simpl;
    [|intros _; exact Hnew..].
  intros Hfail. by destruct (Hfail (Some r)).
Qed.

End ConstructorMore.

Lemma getInstance_failure_retries_witness :
  instance empty_world = None
  /\ (@getInstance sample_collaborators ∅ empty_world).1 = Exited 1
  /\ (@getInstance sample_collaborators ∅ empty_world).2 = empty_world.
Proof.
  split; [reflexivity|]. split; [reflexivity|].
  apply (@getInstance_failure_retries sample_collaborators ∅ empty_world eq_refl).
  intros r. discriminate.
Defined.

(** ** More on the scheduler pass *)

Section SchedulerMore.

Context `{Collaborators}.

Implicit Types (w : World) (ts row : MaintenanceTimeslot) (l : list MaintenanceTimeslot).

Lemma in_pass_events l e :
  In e (pass_events l) ->
  exists ts, In ts l /\ (e = RolledForward ts \/ e = Stored (flagged ts)).
Proof.
  unfold pass_events. intros He. apply in_flat_map in He as (ts & Hts & He).
  exists ts. split; [done|]. destruct He as [<-|[<-|[]]]; auto.
Qed.

Lemma NoDup_pass_events l :
  (forall a b, In a l -> In b l -> ts_id a = ts_id b -> a = b) ->
  List.NoDup l -> List.NoDup (pass_events l).
Proof.
  induction l as [|t l IH]; intros Hkey Hnd; [apply List.NoDup_nil|].
  apply List.NoDup_cons_iff in Hnd as [Hnt Hnd]. simpl.
  apply List.NoDup_cons; [|apply List.NoDup_cons].
  - intros [[=]|Hin]. apply in_pass_events in Hin as (t' & Ht' & [[= ->]|[=]]). done.
  - intros Hin. apply in_pass_events in Hin as (t' & Ht' & [[=]|Hst]).
    apply (f_equal (fun e => match e with Stored b => ts_id b | _ => 0 end)) in Hst.
    simpl in Hst. apply Hnt. by rewrite (Hkey t t'); [|left|right|].
  - apply IH; [|done]. intros a b Ha Hb. apply Hkey; by right.
Qed.

(** X9: a pass works on the slots that its query matched, and on nothing
    else.  Everything it records is the roll-forward or the store of a row
    that was in the table with [generated_next] unset and a start not after
    now when the pass began; it emits nothing; when ids are keys no slot is
    rolled forward or stored twice; and when no slot is due the pass returns
    and leaves the world as it is. *)
Theorem generateMaintenanceTimeslots_only_due w :
  let new_events := drop (length (events w)) (events (generateMaintenanceTimeslots w).2) in
  (forall e, In e new_events ->
     exists ts, (e = RolledForward ts \/ e = Stored (flagged ts))
       /\ In ts (maintenance_timeslot (db w))
       /\ generated_next ts = false /\ start_date ts <= now w)
  /\ (List.NoDup (map ts_id (maintenance_timeslot (db w))) -> List.NoDup new_events)
  /\ (due_timeslots w = [] -> generateMaintenanceTimeslots w = (Returned tt, w)).
Proof.
  rewrite generateMaintenanceTimeslots_unfold. intros new_events.
  destruct (forEachTimeslot_events (due_timeslots w) w) as (done & rest & Hl & Hev & _).
  subst new_events. rewrite Hev, drop_app_length.
  split; [|split].
  - intros e He. apply in_pass_events in He as (ts & Hts & He).
    exists ts. split; [done|].
    assert (In ts (due_timeslots w)) as Hdue by (rewrite Hl; apply in_or_app; by left).
    apply filter_In in Hdue as [Hin Hd]. unfold is_due in Hd.
    apply andb_prop in Hd as [Hg Hs]. apply negb_true_iff in Hg.
    by apply Z.leb_le in Hs.
  - intros Hnd. apply NoDup_pass_events.
    + intros a b Ha Hb. apply (NoDup_map_eq ts_id (maintenance_timeslot (db w))); [done|..].
      * assert (In a (due_timeslots w)) as Hd by (rewrite Hl; apply in_or_app; by left).
        by apply filter_In in Hd as [Hd _].
      * assert (In b (due_timeslots w)) as Hd by (rewrite Hl; apply in_or_app; by left).
        by apply filter_In in Hd as [Hd _].
    + apply (List.NoDup_app_remove_r _ rest). rewrite <- Hl.
      apply List.NoDup_filter. by apply List.NoDup_map_inv in Hnd.
  - by intros ->.
Qed.

Lemma update_row_other t rows row :
  In row rows -> ts_id row <> ts_id t -> In row (update_row (flagged t) rows).
Proof.
  intros Hin Hne. unfold update_row. apply in_map_iff. exists row. split; [|done].
  apply Z.eqb_neq in Hne. simpl. by rewrite Hne.
Qed.

Lemma forEachTimeslot_keeps_other l w row :
  rollforward_keeps_rows ->
  In row (maintenance_timeslot (db w)) ->
  (forall t, In t l -> ts_id t <> ts_id row) ->
  In row (maintenance_timeslot (db (forEachTimeslot l w).2)).
Proof.
  intros Hkeep. revert w. induction l as [|t l IH]; intros w Hin Hne; [done|].
  simpl. unfold bind. rewrite processTimeslot_run.
  pose proof (Hkeep (window_of (db w) t) (end_date t) false (now w) (db w) row Hin) as Hgen.
  destruct (generateTimeslot _ _ _ _ _) as [[[]|e|c] d]; simpl in *; [|done|done].
  apply IH.
  - simpl. apply update_row_other; [done|]. intros Heq. apply (Hne t); [by left|done].
  - intros t' Ht'. apply Hne. by right.
Qed.

(** X10: the pass writes to the rows that its query matched and to no other
    row.  With a roll-forward routine that keeps the rows it finds, in a
    table whose ids are keys, every row that is flagged already or that
    starts in the future is in the table after the pass exactly as it was
    before, however the pass ends. *)
Theorem generateMaintenanceTimeslots_keeps_unmatched w row :
  rollforward_keeps_rows ->
  List.NoDup (map ts_id (maintenance_timeslot (db w))) ->
  In row (maintenance_timeslot (db w)) ->
  is_due (now w) row = false ->
  In row (maintenance_timeslot (db (generateMaintenanceTimeslots w).2)).
Proof.
  intros Hkeep Hnd Hin Hdue. rewrite generateMaintenanceTimeslots_unfold.
  apply forEachTimeslot_keeps_other; [done..|].
  intros t Ht Heq. apply filter_In in Ht as [Ht Hd].
  assert (t = row) as -> by by apply (NoDup_map_eq ts_id (maintenance_timeslot (db w))).
  by rewrite Hd in Hdue.
Qed.

End SchedulerMore.

Lemma spec_generateTimeslot_keeps_rows next base :
  @rollforward_keeps_rows (with_rollforward next base).
Proof.
  intros m minDate f t d row Hin. simpl. unfold spec_generateTimeslot.
  destruct m as [m|]; simpl; [|done]. by apply persist_once_incl.
Qed.

Lemma generateMaintenanceTimeslots_keeps_unmatched_witness :
  In slot_future (maintenance_timeslot (db mixed_world))
  /\ is_due (now mixed_world) slot_future = false
  /\ In slot_future
       (maintenance_timeslot
          (db (@generateMaintenanceTimeslots
                 (with_rollforward daily sample_collaborators) mixed_world).2)).
Proof.
  split; [right; right; by left|]. split; [reflexivity|].
  apply (@generateMaintenanceTimeslots_keeps_unmatched
           (with_rollforward daily sample_collaborators) mixed_world slot_future).
  - apply spec_generateTimeslot_keeps_rows.
  - simpl. repeat (apply List.NoDup_cons; [simpl; intros Hin; decompose [or] Hin; done|]).
    apply List.NoDup_nil.
  - right; right; by left.
  - reflexivity.
Defined.

(** ** More on the lists sent to clients *)

Section ListsMore.

Context `{Collaborators}.

Lemma toJSON_each_keys l result w :
  match toJSON_each l result w with
  | (Returned list, _) =>
      forall k, is_Some (list !! k) <-> is_Some (result !! k) \/ In k (map mnt_id l)
  | _ => True
  end.
Proof.
  revert result w. induction l as [|m l IH]; intros result w.
  - simpl. intros k. split; [by left|]. by intros [?|[]].
  - simpl. unfold bind. destruct (call (toJSON m) w) as [[json|e|c] w1]; [|done|done].
    specialize (IH (<[mnt_id m := json]> result) w1).
    destruct (toJSON_each l _ w1) as [[list|e|c] w2]; [|done|done].
    intros k. rewrite IH, lookup_insert. case_decide as Hk.
    + subst k. split; [intros _; right; by left|intros _; left; by eexists].
    + split; [intros [?|?]; auto|intros [?|[?|?]]; auto; done].
Qed.

Lemma getMaintenanceJSONList_unfold uid w :
  getMaintenanceJSONList uid w =
    toJSON_each (merge_sort (fun a b => Is_true (maintenance_before a b))
                   (List.filter (fun m => user_id m =? uid) (maintenance (db w)))) ∅ w.
Proof. reflexivity. Qed.

(** X11: the mapping that [getMaintenanceJSONList(userID)] returns has a key
    for the id of each maintenance of that user, as the table had them when
    the call began, and no other key: the maintenances of other users never
    show.  For a user without maintenances it is empty and the world stays
    as it is. *)
Theorem getMaintenanceJSONList_keys uid w :
  match getMaintenanceJSONList uid w with
  | (Returned list, _) =>
      forall k, is_Some (list !! k) <->
                exists m, In m (maintenance (db w)) /\ user_id m = uid /\ mnt_id m = k
  | _ => True
  end
  /\ ((forall m, In m (maintenance (db w)) -> user_id m <> uid) ->
      getMaintenanceJSONList uid w = (Returned ∅, w)).
Proof.
  rewrite getMaintenanceJSONList_unfold.
  split.
  - match goal with |- context [toJSON_each ?l ?r ?w'] =>
      pose proof (toJSON_each_keys l r w') as Hkeys;
      destruct (toJSON_each l r w') as [[list|e|c] w2] end; [|done|done].
    intros k. rewrite Hkeys, lookup_empty. split.
    + intros [[? [=]]|Hin]. apply in_map_iff in Hin as (m & Hm & Hin).
      apply list_elem_of_In in Hin. rewrite merge_sort_Permutation in Hin.
      apply list_elem_of_In, filter_In in Hin as [Hin Hu]. apply Z.eqb_eq in Hu.
      by exists m.
    + intros (m & Hin & Hu & Hm). right. apply in_map_iff. exists m. split; [done|].
      apply list_elem_of_In. rewrite merge_sort_Permutation.
      apply list_elem_of_In, filter_In. split; [done|]. by apply Z.eqb_eq.
  - intros Hnone.
    assert (List.filter (fun m => user_id m =? uid) (maintenance (db w)) = []) as ->; [|done].
    induction (maintenance (db w)) as [|m l IH]; [done|]. simpl.
    destruct (user_id m =? uid) eqn:Hu.
    + apply Z.eqb_eq in Hu. by destruct (Hnone m (or_introl eq_refl)).
    + apply IH. intros m' Hm'. apply Hnone. by right.
Qed.

End ListsMore.

Section MonitorList.

Variable monitor : list Monitor.
Variable monitor_toJSON : Monitor -> External Json.

Lemma monitor_toJSON_each_run l result w :
  match monitor_toJSON_each monitor_toJSON l result w with
  | (Returned list, w') =>
      (forall k, is_Some (list !! k) <-> is_Some (result !! k) \/ In k (map mon_id l))
      /\ events w' = events w /\ same_process w w'
  | (_, w') => events w' = events w /\ same_process w w'
  end.
Proof.
  revert result w. induction l as [|m l IH]; intros result w.
  - simpl. split; [|done]. intros k. split; [by left|]. by intros [?|[]].
  - simpl. unfold bind, call.
    destruct (monitor_toJSON m (now w) (db w)) as [[json|e|c] d]; [|done|done].
    specialize (IH (<[mon_id m := json]> result) (with_db d w)).
    destruct (monitor_toJSON_each _ l _ _) as [[list|e|c] w2]; [|done|done].
    destruct IH as (IH & Hev & Hsame). split; [|done].
    intros k. rewrite IH, lookup_insert. case_decide as Hk.
    + subst k. split; [intros _; right; by left|intros _; left; by eexists].
    + split; [intros [?|?]; auto|intros [?|[?|?]]; auto; done].
Qed.

Lemma sendMonitorList_unfold socket w :
  sendMonitorList monitor monitor_toJSON socket w =
    (list <- monitor_toJSON_each monitor_toJSON
               (merge_sort (fun a b => Is_true (monitor_before a b))
                  (List.filter (fun m => mon_user_id m =? userID socket) monitor)) ∅ ;;
     emit (userID socket) "monitorList" list ;;
     ret list) w.
Proof. reflexivity. Qed.

(** X12: [sendMonitorList(socket)], when it returns, has emitted the mapping
    it returns once, as event [monitorList], to the room of [socket.userID],
    and has changed nothing of the process state; the mapping has a key for
    the id of each monitor of that user and no other key.  When it does not
    return (a [toJSON] threw), nothing was emitted. *)
Theorem sendMonitorList_emits socket w :
  match sendMonitorList monitor monitor_toJSON socket w with
  | (Returned list, w') =>
      events w' = events w ++ [Emitted (userID socket) "monitorList" list]
      /\ (forall k, is_Some (list !! k) <->
                    exists m, In m monitor /\ mon_user_id m = userID socket /\ mon_id m = k)
      /\ same_process w w'
  | (_, w') => events w' = events w /\ same_process w w'
  end.
Proof.
  rewrite sendMonitorList_unfold. unfold bind.
  match goal with |- context [monitor_toJSON_each _ ?l ?r ?w'] =>
    pose proof (monitor_toJSON_each_run l r w') as Hrun;
    destruct (monitor_toJSON_each monitor_toJSON l r w') as [[list|e|c] w2] end;
    [|done|done].
  destruct Hrun as (Hkeys & Hev & Hsame). simpl. rewrite Hev. split; [done|]. split; [|done].
  intros k. rewrite Hkeys, lookup_empty. split.
  - intros [[? [=]]|Hin]. apply in_map_iff in Hin as (m & Hm & Hin).
    apply list_elem_of_In in Hin. rewrite merge_sort_Permutation in Hin.
    apply list_elem_of_In, filter_In in Hin as [Hin Hu]. apply Z.eqb_eq in Hu.
    by exists m.
  - intros (m & Hin & Hu & Hm). right. apply in_map_iff. exists m. split; [done|].
    apply list_elem_of_In. rewrite merge_sort_Permutation.
    apply list_elem_of_In, filter_In. split; [done|]. by apply Z.eqb_eq.
Qed.

End MonitorList.

(** ** More on the client IP *)

Section ClientIPMore.

Implicit Types (s t : string) (c : ascii).

Lemma contains_app c s t : contains c (s +:+ t) = contains c s || contains c t.
Proof. induction s as [|a r IH]; simpl; [done|]. by rewrite IH, orb_assoc. Qed.

Lemma after_last_colon_no_colon s : contains ":" s = false -> after_last_colon s = None.
Proof.
  induction s as [|a r IH]; simpl; [done|].
  intros Hc. apply orb_false_iff in Hc as [Ha Hr]. by rewrite (IH Hr), Ha.
Qed.

Lemma after_last_colon_app s t :
  contains ":" t = false -> after_last_colon (s +:+ ":" +:+ t) = Some t.
Proof.
  intros Ht. induction s as [|a r IH].
  - change (after_last_colon (String ":" t) = Some t). cbn [after_last_colon].
    by rewrite (after_last_colon_no_colon _ Ht).
  - change (after_last_colon (String a (r +:+ ":" +:+ t)) = Some t).
    cbn [after_last_colon]. by rewrite IH.
Qed.

(** X14: when the answer of [getClientIP] comes from the baseline (with
    [trustProxy] off, or on without a usable forwarding header) and the
    baseline, on one line, ends in a colon followed by a part without colon,
    the answer is that last part: the address of an IPv4-mapped
    "::ffff:a.b.c.d", and likewise the last group of any other IPv6 address
    and the port of "host:port". *)
Theorem getClientIP_last_part socket w prefix last :
  truthy (setting_value "trustProxy" w) = false
  \/ (str_truthy (forwardedFor_first socket) = false
      /\ str_truthy (headers socket !! "x-real-ip") = false) ->
  baseline socket = prefix +:+ ":" +:+ last ->
  single_line prefix = true -> single_line last = true -> contains ":" last = false ->
  getClientIP socket w = (Returned last, w).
Proof.
  intros Hsrc Hb Hp Hl Hc.
  assert (replace_to_last_colon (baseline socket) = last) as Hstrip.
  { rewrite replace_to_last_colon_spec.
    - unfold spec_strip. by rewrite Hb, after_last_colon_app.
    - rewrite Hb. unfold single_line in *. rewrite !contains_app. simpl.
      apply andb_prop in Hp as [Hp1 Hp2], Hl as [Hl1 Hl2].
      apply negb_true_iff in Hp1, Hp2, Hl1, Hl2. by rewrite Hp1, Hp2, Hl1, Hl2. }
  destruct (truthy (setting_value "trustProxy" w)) eqn:Ht.
  - destruct Hsrc as [?|[Hx Hr]]; [done|].
    rewrite (getClientIP_trusting _ _ Ht), Hstrip. unfold js_or. rewrite Hx.
    destruct (headers socket !! "x-real-ip") as [x|]; simpl in *; [|done].
    apply negb_false_iff in Hr. by rewrite Hr.
  - by rewrite (getClientIP_untrusting _ _ Ht), Hstrip.
Qed.

End ClientIPMore.

Lemma getClientIP_last_part_witness :
  baseline proxied_socket = "::ffff" +:+ ":" +:+ "10.0.0.1"
  /\ getClientIP proxied_socket empty_world = (Returned "10.0.0.1", empty_world).
Proof.
  split; [reflexivity|].
  apply (getClientIP_last_part proxied_socket empty_world "::ffff" "10.0.0.1");
    [by left|reflexivity..].
Defined.
